(** * Furnace lining calculator: a shallow embedding of [src/main.py]

    The development follows the three pieces of the program that carry
    logic: [UnitConverter], [MaterialManager] and the thermal solver that
    lives in [calculate].

    Number model.  [UnitConverter] only multiplies, divides, adds and
    subtracts, so it is embedded on Rocq's primitive binary64 floats, which
    are Python's floats bit for bit; this keeps [inf] and [nan] in the
    picture.  The solver uses [math.log], [math.sqrt] and [**], for which
    no bit-exact model exists; it is embedded over the real numbers, every
    Python operation that can raise ([/] by zero, [math.log] and
    [math.sqrt] outside their domain) returning an explicit error.  The
    theorems about the solver are therefore statements about exact
    arithmetic; rounding and overflow are outside the model. *)

From Stdlib Require Import PrimFloat.
From Stdlib Require Import Reals Lra Lia List String Bool.
Import ListNotations.

#[local] Set Warnings "-inexact-float".

(** ** Python exceptions as an error monad *)

Inductive exn : Type :=
| KeyError
| TypeError
| ValueError
| ZeroDivisionError.

Inductive res (A : Type) : Type :=
| Ok (a : A)
| Raise (e : exn).

Arguments Ok {A} a.
Arguments Raise {A} e.

Definition bind {A B : Type} (m : res A) (k : A -> res B) : res B :=
  match m with
  | Ok a => k a
  | Raise e => Raise e
  end.

Notation "x <- m ;; k" := (bind m (fun x => k))
  (at level 61, m at next level, right associativity).

(** [d[k]] on a dict whose keys are strings, kept as an association list in
    insertion order; a missing key raises [KeyError]. *)
Fixpoint getitem {A : Type} (d : list (string * A)) (k : string) : res A :=
  match d with
  | [] => Raise KeyError
  | (k', v) :: rest => if String.eqb k' k then Ok v else getitem rest k
  end.

(** [k in d] *)
Fixpoint has_key {A : Type} (d : list (string * A)) (k : string) : bool :=
  match d with
  | [] => false
  | (k', _) :: rest => String.eqb k' k || has_key rest k
  end.

(** ** UnitConverter *)

Module UnitConverter.

Local Open Scope string_scope.
Local Open Scope float_scope.

(** The values of the inner dicts: a scale factor, or, under ["Temp"], the
    one-letter tags the code never multiplies by. *)
Inductive factor : Type :=
| Scale (f : float)
| Tag (s : string).

Definition UNITS : list (string * list (string * factor)) :=
  [ ("Length", [("mm", Scale 0.001); ("m", Scale 1.0); ("cm", Scale 0.01);
                ("in", Scale 0.0254)]);
    ("Temp", [("°C", Tag "c"); ("K", Tag "k"); ("°F", Tag "f")]);
    ("Power", [("W", Scale 1.0); ("kW", Scale 1000.0);
               ("kcal/h", Scale 1.16222); ("MJ/h", Scale 277.778)]);
    ("Flux", [("W/m²", Scale 1.0); ("kW/m²", Scale 1000.0);
              ("kcal/(m²·h)", Scale 1.16222)]);
    ("Conductivity", [("W/(m·K)", Scale 1.0);
                      ("kcal/(m·h·°C)", Scale 1.16222)]);
    ("Coeff", [("W/(m²·K)", Scale 1.0); ("kcal/(m²·h·°C)", Scale 1.16222)]);
    ("Velocity", [("m/s", Scale 1.0); ("km/h", Scale 0.27778);
                  ("ft/min", Scale 0.00508)]);
    ("Area", [("m²", Scale 1.0); ("cm²", Scale 0.0001); ("ft²", Scale 0.0929)])
  ].

(** [val * f]: a float times a str is a [TypeError]. *)
Definition mul_factor (val : float) (f : factor) : res float :=
  match f with
  | Scale s => Ok (val * s)
  | Tag _ => Raise TypeError
  end.

(** [val / f]: division by a zero float is a [ZeroDivisionError]. *)
Definition div_factor (val : float) (f : factor) : res float :=
  match f with
  | Scale s => if is_zero s then Raise ZeroDivisionError else Ok (val / s)
  | Tag _ => Raise TypeError
  end.

Definition to_si (val : float) (unit cat : string) : res float :=
  if String.eqb cat "Temp" && String.eqb unit "°C" then Ok val
  else if String.eqb cat "Temp" && String.eqb unit "K" then Ok (val - 273.15)
  else if String.eqb cat "Temp" && String.eqb unit "°F"
       then Ok ((val - 32) * 5 / 9)
  else
    d <- getitem UNITS cat ;;
    f <- getitem d unit ;;
    mul_factor val f.

Definition from_si (val : float) (unit cat : string) : res float :=
  if String.eqb cat "Temp" && String.eqb unit "°C" then Ok val
  else if String.eqb cat "Temp" && String.eqb unit "K" then Ok (val + 273.15)
  else if String.eqb cat "Temp" && String.eqb unit "°F"
       then Ok (val * 9 / 5 + 32)
  else
    d <- getitem UNITS cat ;;
    f <- getitem d unit ;;
    div_factor val f.

(** The category is a key of [UNITS] and the unit a key of its dict. *)
Definition recognised (unit cat : string) : bool :=
  match getitem UNITS cat with
  | Ok d => has_key d unit
  | Raise _ => false
  end.

(** Every value of the dict is a float other than zero. *)
Definition all_scale (d : list (string * factor)) : bool :=
  forallb (fun kv => match snd kv with
                     | Scale s => negb (is_zero s)
                     | Tag _ => false
                     end) d.

End UnitConverter.

(** ** MaterialManager *)

Module MaterialManager.

Local Open Scope string_scope.
Local Open Scope R_scope.

(** One row of [self.data]: the dict [{"name": .., "a": .., "b": ..}]. *)
Record Material : Type := mkMaterial {
  d_name : string;
  d_a : R;
  d_b : R
}.

(** [self.data], a list in insertion order. *)
Definition table : Type := list Material.

(** The built-in rows [load_materials] falls back to. *)
Definition seed : table :=
  [ mkMaterial "耐火砖" 0.8 0.0002;
    mkMaterial "高铝砖" 2.0 0.0005;
    mkMaterial "保温砖" 0.15 0.0001;
    mkMaterial "硅酸铝纤维" 0.05 0.00015;
    mkMaterial "碳钢壳体" 45.0 (-0.02);
    mkMaterial "空气层" 0.03 0.00005 ].

Definition get_names (data : table) : list string := map d_name data.

Fixpoint get_params (data : table) (name : string) : R * R :=
  match data with
  | [] => (1.0, 0.0)
  | d :: rest =>
      if String.eqb (d_name d) name then (d_a d, d_b d)
      else get_params rest name
  end.

(** The first row called [name] gets the new coefficients and the method
    returns; with no such row one is appended. *)
Fixpoint upsert (name : string) (a b : R) (data : table) : table :=
  match data with
  | [] => [mkMaterial name a b]
  | d :: rest =>
      if String.eqb (d_name d) name then mkMaterial (d_name d) a b :: rest
      else d :: upsert name a b rest
  end.

Definition delete (name : string) (data : table) : table :=
  filter (fun d => negb (String.eqb (d_name d) name)) data.

(** [self.delete(old_name); self.upsert(new_name, a, b)] *)
Definition rename (old_name new_name : string) (a b : R) (data : table)
  : table :=
  let data := delete old_name data in
  upsert new_name a b data.

End MaterialManager.

(** ** The thermal solver: [calculate] *)

Module Solver.

Local Open Scope string_scope.
Local Open Scope R_scope.

(** *** Python arithmetic that can raise *)

(** [x / y] *)
Definition pydiv (x y : R) : res R :=
  if Req_dec_T y 0 then Raise ZeroDivisionError else Ok (x / y).

(** [math.log(x)]: a math domain error for [x <= 0]. *)
Definition math_log (x : R) : res R :=
  if Rlt_dec 0 x then Ok (ln x) else Raise ValueError.

(** [math.sqrt(x)]: a math domain error for [x < 0]. *)
Definition math_sqrt (x : R) : res R :=
  if Rle_dec 0 x then Ok (sqrt x) else Raise ValueError.

(** [sub in s] on strings. *)
Fixpoint contains (sub s : string) : bool :=
  String.prefix sub s ||
  match s with
  | EmptyString => false
  | String _ s' => contains sub s'
  end.

(** *** Data *)

(** What [calculate] reads from one row of [layer_controls]: the material
    name and the thickness already converted to metres. *)
Record LayerItem : Type := mkItem {
  item_nm : string;
  item_tsi : R
}.

(** What [calculate] reads from the form, in SI units; the fan flow keeps
    its value and unit because [calculate] converts it itself. *)
Record Inputs : Type := mkInputs {
  D : R;
  H : R;
  t0 : R;
  ta : R;
  eps : R;
  vnat : R;
  q_val : R;
  q_unit : string;
  fdia : R;
  pos_val : string;
  layer_controls : list LayerItem
}.

(** One entry of [layers] (the display-only keys [thick_disp] and
    [unit_disp] are left out). *)
Record Layer : Type := mkLayer {
  l_a : R;
  l_b : R;
  l_ri : R;
  l_ro : R;
  l_nm : string;
  l_thick_si : R
}.

(** [result_data] without the echoed form values. *)
Record ThermalResult : Type := mkResult {
  r_Q : R;
  r_q : R;
  r_ts : R;
  r_h_tot : R;
  r_h_conv : R;
  r_h_rad : R;
  r_xi : R;
  r_v_tot : R;
  r_temps : list R;
  r_Aout : R
}.

(** How a call of [calculate] ends: the result is stored and shown, the
    snack bar says the iteration did not converge, or an exception was
    caught and reported. *)
Inductive outcome : Type :=
| Converged (r : ThermalResult)
| NotConverged
| CalcError (e : exn).

(** *** Layer stack (lines 316-326) *)

Fixpoint build_layers (mats : MaterialManager.table) (rc : R)
  (items : list LayerItem) : list Layer * R :=
  match items with
  | [] => ([], rc)
  | item :: rest =>
      let (asi, bsi) := MaterialManager.get_params mats (item_nm item) in
      let rn := rc + item_tsi item in
      let (ls, rc') := build_layers mats rn rest in
      (mkLayer asi bsi rc rn (item_nm item) (item_tsi item) :: ls, rc')
  end.

(** *** Conduction through the layers (lines 342-356) *)

(** The [for _ in range(5)] loop of one layer; [n] is the number of rounds
    left and the result is [ti] on exit. *)
Fixpoint fixed_point (n : nat) (l : Layer) (curr term ti : R) : res R :=
  match n with
  | O => Ok ti
  | S n' =>
      let tavg := (curr + ti) / 2 in
      let lam := l_a l + l_b l * tavg in
      let lam := if Rlt_dec lam 0.01 then 0.01 else lam in
      d <- pydiv term lam ;;
      let tn := curr + d in
      if Rlt_dec (Rabs (tn - ti)) 0.1 then Ok tn
      else fixed_point n' l curr term tn
  end.

(** The body of [for l in reversed(layers)]: the inner-face temperature of
    [l] when its outer face is at [curr]. *)
Definition layer_inner (Hh Q : R) (l : Layer) (curr : R) : res R :=
  ql <- pydiv Q Hh ;;
  ratio <- pydiv (l_ro l) (l_ri l) ;;
  lg <- math_log ratio ;;
  let term := (ql * lg) / (2 * PI) in
  fixed_point 5 l curr term (curr + 10).

(** The loop over [reversed(layers)]; [ls] is what is left of the reversed
    list, and the result is the final [(curr, temps)]. *)
Fixpoint back_propagate (Hh Q : R) (ls : list Layer) (curr : R)
  (temps : list R) : res (R * list R) :=
  match ls with
  | [] => Ok (curr, temps)
  | l :: rest =>
      ti <- layer_inner Hh Q l curr ;;
      back_propagate Hh Q rest ti (temps ++ [ti])
  end.

(** *** The solver proper *)

Section Calculate.

Variable mat_mgr : MaterialManager.table.
Variable inp : Inputs.

Definition q_si : R :=
  if String.eqb (q_unit inp) "m³/s" then q_val inp else q_val inp / 3600.0.

Definition vfan : res R :=
  if Rlt_dec 0 q_si then
    if Rlt_dec 0 (fdia inp) then pydiv q_si (PI * (fdia inp / 2) ^ 2)
    else Ok 0
  else Ok 0.

Definition Cpos : R :=
  if contains "顶" (pos_val inp) then 2.8
  else if contains "底" (pos_val inp) then 1.5
  else 2.2.

Definition layers : list Layer :=
  fst (build_layers mat_mgr (D inp / 2) (layer_controls inp)).

(** [rc] after the loop: the outer radius of the stack. *)
Definition rc : R :=
  snd (build_layers mat_mgr (D inp / 2) (layer_controls inp)).

Definition Aout : R := 2 * PI * rc * H inp.

(** What one round of the outer loop computes from [ts] (lines 334-356). *)
Record Evaluation : Type := mkEval {
  e_hconv : R;
  e_hrad : R;
  e_htot : R;
  e_Q : R;
  e_curr : R;
  e_temps : list R
}.

Definition evaluate (xi ts : R) : res Evaluation :=
  let dt := ts - ta inp in
  let dt := if Rlt_dec dt 1e-3 then 1e-3 else dt in
  let hnat := Cpos * Rpower dt 0.25 in
  let hconv := hnat * xi in
  hrad <- pydiv (eps inp * 5.67e-8 *
                 ((ts + 273.15) ^ 4 - (ta inp + 273.15) ^ 4)) dt ;;
  let htot := hconv + hrad in
  let Q := htot * Aout * dt in
  ct <- back_propagate (H inp) Q (rev layers) ts [ts] ;;
  Ok (mkEval hconv hrad htot Q (fst ct) (snd ct)).

(** [result_data], built when the bracket has closed. *)
Definition make_result (xi vtot ts : R) (ev : Evaluation)
  : res ThermalResult :=
  q <- pydiv (e_Q ev) Aout ;;
  Ok (mkResult (e_Q ev) q ts (e_htot ev) (e_hconv ev) (e_hrad ev)
               xi vtot (rev (e_temps ev)) Aout).

(** [for _ in range(n)] of the bisection, entered with the bracket
    [low, high]. *)
Fixpoint bisect (n : nat) (xi vtot low high : R) : outcome :=
  match n with
  | O => NotConverged
  | S n' =>
      let ts := (low + high) / 2 in
      match evaluate xi ts with
      | Raise e => CalcError e
      | Ok ev =>
          let low' := if Rlt_dec (e_curr ev) (t0 inp) then ts else low in
          let high' := if Rlt_dec (e_curr ev) (t0 inp) then high else ts in
          if Rlt_dec (Rabs (high' - low')) 0.05 then
            match make_result xi vtot ts ev with
            | Raise e => CalcError e
            | Ok r => Converged r
            end
          else bisect n' xi vtot low' high'
      end
  end.

(** Lines 308-311: the air velocity and the correction factor. *)
Definition velocity : res (R * R * R) :=
  vf <- vfan ;;
  let vtot := vnat inp + vf in
  xi <- math_sqrt ((vtot + 0.348) / 0.348) ;;
  Ok (vf, vtot, xi).

Definition calculate : outcome :=
  match velocity with
  | Raise e => CalcError e
  | Ok (_, vtot, xi) => bisect 60 xi vtot (ta inp) (t0 inp)
  end.

End Calculate.

(** *** Predicates the properties are stated with *)

(** A layer whose radii let [ro / ri] and its logarithm be computed. *)
Definition layer_ok (l : Layer) : Prop := l_ri l <> 0 /\ 0 < l_ro l / l_ri l.

(** [temps] are the face temperatures of the layers [ls], innermost face
    first: every entry is what [layer_inner] reconstructs for its layer
    from the entry that follows, and one entry is left for the outer
    surface. *)
Fixpoint profile (Hh Q : R) (ls : list Layer) (temps : list R) : Prop :=
  match ls, temps with
  | [], [_] => True
  | l :: ls', ti :: rest =>
      match rest with
      | tout :: _ => layer_inner Hh Q l tout = Ok ti /\ profile Hh Q ls' rest
      | [] => False
      end
  | _, _ => False
  end.

(** What the loop over the reversed layers appends to [temps], as a
    relation: [new] are the inner-face temperatures met on the way in from
    [curr]. *)
Inductive chain (Hh Q : R) : list Layer -> R -> list R -> Prop :=
| chain_nil (curr : R) : chain Hh Q [] curr []
| chain_cons (l : Layer) (ls : list Layer) (curr ti : R) (new : list R) :
    layer_inner Hh Q l curr = Ok ti ->
    chain Hh Q ls ti new ->
    chain Hh Q (l :: ls) curr (ti :: new).

(** Inputs on which no operation of [calculate] raises: a positive bore and
    height, positive thicknesses, and an air velocity that keeps the
    argument of the square root non-negative. *)
Definition physical (inp : Inputs) : Prop :=
  0 < D inp /\ 0 < H inp /\ -0.348 <= vnat inp /\
  Forall (fun item => 0 < item_tsi item) (layer_controls inp).

End Solver.

(** ** Concrete inputs *)

Module Scenarios.

Import Solver.
Local Open Scope string_scope.
Local Open Scope R_scope.

(** The scenario of the specification: one layer of the first seed
    material, 115 mm thick, on a bore of radius 0.75 m. *)
Definition reference : Inputs :=
  mkInputs 1.5 3 1000 25 0.9 0.5 0 "m³/h" 0.5 "垂直炉壁"
           [mkItem "耐火砖" 0.115].


(** The same furnace with a height of zero entered. *)
Definition no_height : Inputs :=
  mkInputs 1.5 0 1000 25 0.9 0.5 0 "m³/h" 0.5 "垂直炉壁"
           [mkItem "耐火砖" 0.115].

(** The same furnace with a negative air velocity entered. *)
Definition headwind : Inputs :=
  mkInputs 1.5 3 1000 25 0.9 (-0.2) 0 "m³/h" 0.5 "垂直炉壁"
           [mkItem "耐火砖" 0.115].

(** A table with one poor conductor of constant conductivity, and a thick
    layer of it around a wall one thousandth of a degree above ambient. *)
Definition insulator_table : MaterialManager.table :=
  [MaterialManager.mkMaterial "insulator" 0.01 0].

Definition lukewarm : Inputs :=
  mkInputs 1.5 3 25.001 25 0.9 0.5 0 "m³/h" 0.5 "垂直炉壁"
           [mkItem "insulator" 0.75].

End Scenarios.

(** ** The cross-section picture: [draw_furnace_ui] and the report *)

Module Drawing.

Import Solver.
Local Open Scope string_scope.
Local Open Scope list_scope.
Local Open Scope R_scope.

(** [sum(xs)]: Python adds from the left, starting at 0. *)
Definition pysum (xs : list R) : R := fold_left Rplus xs 0.

(** [ts_list = [l["ro"] - l["ri"] for l in layers]] *)
Definition ts_list (layers : list Layer) : list R :=
  map (fun l => l_ro l - l_ri l) layers.

(** [Rout = Rin + sum(ts_list)] with [Rin = D/2] *)
Definition Rout (Dd : R) (layers : list Layer) : R :=
  Dd / 2 + pysum (ts_list layers).

Definition CHART_COLORS : list string :=
  ["AMBER_300"; "LIGHT_BLUE_300"; "LIGHT_GREEN_300";
   "ORANGE_300"; "PURPLE_300"; "PINK_300"].

(** The paints and shapes the function puts on the canvas. *)
Inductive paint : Type :=
| Fill (color : string)
| Stroke (color : string)
| StrokeDashed (color : string) (pattern : list nat).

Inductive shape : Type :=
| Circle (x y r : R) (p : paint)
| Text (x y : R) (text : string) (color : string).

(** [enumerate(layers)] *)
Definition enumerate {A : Type} (l : list A) : list (nat * A) :=
  combine (seq 0 (List.length l)) l.

(** [scale = max_r / Rout if Rout > 0 else 1] with [max_r = 95] *)
Definition ui_scale (Dd : R) (layers : list Layer) : res R :=
  if Rlt_dec 0 (Rout Dd layers) then pydiv 95 (Rout Dd layers) else Ok 1.

(** The loop [for i in range(len(ts_list)-1, -1, -1)], run over the
    enumerated layers in reverse: the two circles of each layer are
    appended and [current_r] shrinks by the layer's thickness.  The result
    is the shapes appended and the final [current_r]. *)
Fixpoint ring_shapes (scale current_r : R) (todo : list (nat * Layer))
  : list shape * R :=
  match todo with
  | [] => ([], current_r)
  | (i, l) :: rest =>
      let r_px := current_r * scale in
      let color := nth (i mod List.length CHART_COLORS) CHART_COLORS "" in
      let (shapes, final_r) :=
        ring_shapes scale (current_r - (l_ro l - l_ri l)) rest in
      (Circle 100 100 r_px (Fill color)
         :: Circle 100 100 r_px (Stroke "GREY_600") :: shapes,
       final_r)
  end.

(** [canvas.shapes] when [draw_furnace_ui(D, layers)] returns (the legend
    column is not part of it). *)
Definition draw_furnace_ui (Dd : R) (layers : list Layer) : res (list shape) :=
  scale <- ui_scale Dd layers ;;
  let rings := fst (ring_shapes scale (Rout Dd layers)
                      (rev (enumerate layers))) in
  let r_in_px := Dd / 2 * scale in
  Ok (rings ++
      [Circle 100 100 r_in_px (Fill "WHITE");
       Circle 100 100 r_in_px (StrokeDashed "RED" [4; 2]%nat);
       Text (100 - 15) (100 - 5) "HOT" "RED"]).





End Drawing.

(** ** The stored result: [last_calc_result] *)

Module App.

Import Solver.
Local Open Scope R_scope.

(** [last_calc_result = {"res": result_data, "layers": layers, "D": D}] *)
Record Stored : Type := mkStored {
  s_res : ThermalResult;
  s_layers : list Layer;
  s_D : R
}.

(** One press of the calculate button: [last_calc_result] is assigned only
    in the branch that found the result. *)
Definition on_calculate (last : option Stored)
  (call : MaterialManager.table * Inputs) : option Stored :=
  match calculate (fst call) (snd call) with
  | Converged r =>
      Some (mkStored r (layers (fst call) (snd call)) (D (snd call)))
  | NotConverged => last
  | CalcError _ => last
  end.

(** A session: the presses of the button in order, from the state at
    start-up, [last_calc_result = None]. *)
Definition session (calls : list (MaterialManager.table * Inputs))
  : option Stored :=
  fold_left on_calculate calls None.

(** [trigger_export]: [True] when the file picker is opened, [False] when
    the snack bar asks to calculate first. *)
Definition trigger_export (last : option Stored) : bool :=
  match last with
  | Some _ => true
  | None => false
  end.

End App.

(** ** Statements about the layer stack *)

Module Stack.

Import Solver.
Local Open Scope R_scope.

(** The layers sit on one another: the first starts at radius [r], each
    ends where the next starts, each is as thick as its item says, and the
    last ends at [r_out]. *)
Fixpoint contiguous (r : R) (ls : list Layer) (r_out : R) : Prop :=
  match ls with
  | [] => r_out = r
  | l :: rest =>
      l_ri l = r /\ l_ro l = r + l_thick_si l /\
      contiguous (l_ro l) rest r_out
  end.

(** Temperatures that fall strictly from one entry to the next. *)
Fixpoint falling (temps : list R) : Prop :=
  match temps with
  | [] => True
  | t :: rest =>
      match rest with
      | [] => True
      | t' :: _ => t' < t /\ falling rest
      end
  end.

End Stack.

(** ** More concrete inputs *)

Module MoreScenarios.

Import Solver.
Local Open Scope string_scope.
Local Open Scope R_scope.

(** The reference furnace with no layer at all. *)
Definition bare : Inputs :=
  mkInputs 1.5 3 1000 25 0.9 0.5 0 "m³/h" 0.5 "垂直炉壁" [].

(** The reference furnace with an air velocity of -1 m/s entered. *)
Definition gale : Inputs :=
  mkInputs 1.5 3 1000 25 0.9 (-1) 0 "m³/h" 0.5 "垂直炉壁"
           [mkItem "耐火砖" 0.115].

(** The reference furnace with a bore diameter of zero entered. *)
Definition no_bore : Inputs :=
  mkInputs 0 3 1000 25 0.9 0.5 0 "m³/h" 0.5 "垂直炉壁"
           [mkItem "耐火砖" 0.115; mkItem "高铝砖" 0.23].

(** The two layers the program starts with, on the reference furnace. *)
Definition two_layers : Inputs :=
  mkInputs 1.5 3 1000 25 0.9 0.5 0 "m³/h" 0.5 "垂直炉壁"
           [mkItem "耐火砖" 0.115; mkItem "高铝砖" 0.23].

End MoreScenarios.

(** ** The list of layer rows: [add_layer] and [remove_layer] *)

From Stdlib Require DecimalString.

(** [f"{n}"] for a non-negative integer. *)
Definition pystr (n : nat) : string :=
  DecimalString.NilZero.string_of_uint (Nat.to_uint n).

Module LayerList.

Local Open Scope string_scope.
Local Open Scope list_scope.

(** One entry of [layer_controls].  [container] stands for the row's
    [ft.Container] object, compared by identity; [dd], [tf] and [unit] are
    the values of the three inputs and [label] the text of the row number
    (the preview text is left out). *)
Record Row : Type := mkRow {
  container : nat;
  dd : string;
  tf : string;
  unit : string;
  label : string
}.

(** The two lists the functions keep: [layer_controls] and
    [layer_list_container.controls]. *)
Record State : Type := mkState {
  layer_controls : list Row;
  controls : list nat
}.

(** What a handler can raise here. *)
Inductive failure : Type :=
| IndexError
| ListValueError.

(** [add_layer(e, mat_idx, thickness)] with [names = mat_mgr.get_names()]
    and [fresh] the new container: the material is [names[mat_idx]] when
    the index is in range and [names[0]] otherwise, which raises on an
    empty table before anything is appended. *)
Definition add_layer (names : list string) (fresh mat_idx : nat)
  (thickness : string) (st : State) : State * option failure :=
  let idx := S (List.length (layer_controls st)) in
  let value :=
    if Nat.ltb mat_idx (List.length names) then nth_error names mat_idx
    else nth_error names 0 in
  match value with
  | None => (st, Some IndexError)
  | Some v =>
      (mkState (layer_controls st ++ [mkRow fresh v thickness "mm" (pystr idx)])
               (controls st ++ [fresh]),
       None)
  end.

(** The loop that pops the first row whose container is [c]. *)
Fixpoint pop_container (c : nat) (rows : list Row) : list Row :=
  match rows with
  | [] => []
  | r :: rest =>
      if Nat.eqb (container r) c then rest else r :: pop_container c rest
  end.

(** [l.remove(c)]: the first occurrence goes; [None] is the [ValueError]
    of a value that is not in the list. *)
Fixpoint list_remove (c : nat) (l : list nat) : option (list nat) :=
  match l with
  | [] => None
  | x :: rest =>
      if Nat.eqb x c then Some rest
      else match list_remove c rest with
           | Some rest' => Some (x :: rest')
           | None => None
           end
  end.

(** The last loop of [remove_layer]: row [i] is numbered [i+1]. *)
Definition renumber (rows : list Row) : list Row :=
  map (fun ir => mkRow (container (snd ir)) (dd (snd ir)) (tf (snd ir))
                       (unit (snd ir)) (pystr (S (fst ir))))
      (Drawing.enumerate rows).

(** [remove_layer(container)]: refused when one row or none is left;
    otherwise the row is popped, the container is removed from the
    column, which raises when it is not there, and the rows are
    renumbered. *)
Definition remove_layer (c : nat) (st : State) : State * option failure :=
  if Nat.leb (List.length (layer_controls st)) 1 then (st, None)
  else
    let rows := pop_container c (layer_controls st) in
    match list_remove c (controls st) with
    | None => (mkState rows (controls st), Some ListValueError)
    | Some cs => (mkState (renumber rows) cs, None)
    end.

(** The state the handlers keep: the rows and the column hold the same
    containers in the same order, no container twice, at least one row,
    and the rows are numbered 1, 2, ... *)
Definition well_kept (st : State) : Prop :=
  map container (layer_controls st) = controls st /\
  NoDup (controls st) /\
  layer_controls st <> [] /\
  map label (layer_controls st) =
    map (fun i => pystr (S i)) (seq 0 (List.length (layer_controls st))).

(** One event of the user interface: a layer is added with a container
    that is new, or the delete button of some container is pressed. *)
Inductive event (names : list string) (st : State) : State -> Prop :=
| ev_add (fresh mat_idx : nat) (thickness : string) :
    ~ In fresh (controls st) ->
    event names st (fst (add_layer names fresh mat_idx thickness st))
| ev_remove (c : nat) :
    In c (controls st) ->
    event names st (fst (remove_layer c st)).

Inductive events (names : list string) (st : State) : State -> Prop :=
| evs_none : events names st st
| evs_more (mid st' : State) :
    event names st mid -> events names mid st' -> events names st st'.

(** The rows after the two calls of [add_layer] at start-up, with the
    names of the built-in materials. *)
Definition start_up : State :=
  let names := MaterialManager.get_names MaterialManager.seed in
  let st := fst (add_layer names 0 0 "115" (mkState [] [])) in
  fst (add_layer names 1 1 "230" st).

End LayerList.

(** ** The temperature table *)

Module TempsTable.

Local Open Scope string_scope.
Local Open Scope list_scope.

Section Rows.

(** [f"{t:.1f}"], the text of a temperature. *)
Variable fmt1 : R -> string.

(** The label of row [i] of [enumerate(temps_rev[1:])]; [len] is
    [len(temps_rev)].  [len - 2] is the natural-number difference: it
    differs from Python's only for [len < 2], when there is no row. *)
Definition row_label (len i : nat) : string :=
  if Nat.eqb i (len - 2) then "外壁表面"
  else "层 " ++ pystr (S i) ++ " 界面".

(** The rows appended to [temps_table] (lines 384-388): a label, the
    temperature and its unit.  [None] is the [IndexError] of
    [temps_rev[0]] on an empty list. *)
Definition temps_rows (temps_rev : list R)
  : option (list (string * string * string)) :=
  match temps_rev with
  | [] => None
  | first :: rest =>
      Some (("内壁(验算)", fmt1 first, "°C")
            :: map (fun it => (row_label (List.length temps_rev) (fst it),
                               fmt1 (snd it), "°C"))
                   (Drawing.enumerate rest))
  end.

End Rows.

End TempsTable.
Module UnitConverterFacts.

Import UnitConverter.
Local Open Scope string_scope.

Lemma getitem_has_key {A : Type} (d : list (string * A)) (k : string) :
  if has_key d k then exists v, getitem d k = Ok v
  else getitem d k = Raise KeyError.
Proof.
  induction d as [|[k' v] rest IH]; simpl.
  - reflexivity.
  - destruct (String.eqb k' k); simpl.
    + exists v; reflexivity.
    + exact IH.
Qed.

Lemma getitem_scales (d : list (string * factor)) (k : string) (f : factor) :
  all_scale d = true -> getitem d k = Ok f ->
  exists s, f = Scale s /\ PrimFloat.is_zero s = false.
Proof.
  induction d as [|[k' v] rest IH]; simpl; intros Hall Hget.
  - discriminate.
  - apply andb_true_iff in Hall as [Hv Hrest].
    destruct (String.eqb k' k).
    + injection Hget as <-. destruct v as [s|t]; [|discriminate].
      exists s. split; [reflexivity|].
      now apply negb_true_iff in Hv.
    + now apply IH.
Qed.

Lemma units_scales (cat : string) (d : list (string * factor)) :
  String.eqb cat "Temp" = false -> getitem UNITS cat = Ok d ->
  all_scale d = true.
Proof.
  intros Hcat. unfold UNITS. cbn -[String.eqb].
  rewrite (String.eqb_sym "Temp" cat), Hcat.
  repeat match goal with
  | |- context [String.eqb ?k cat] => destruct (String.eqb k cat)
  end; intros Hd; try discriminate; injection Hd as <-; reflexivity.
Qed.

Lemma temp_keys (unit : string) :
  has_key [("°C", Tag "c"); ("K", Tag "k"); ("°F", Tag "f")] unit =
  (String.eqb unit "°C" || String.eqb unit "K" || String.eqb unit "°F").
Proof.
  cbn -[String.eqb]. rewrite !(String.eqb_sym unit).
  now rewrite orb_false_r, orb_assoc.
Qed.

(** C6 (amended): [to_si] and [from_si] raise [KeyError], and return
    nothing, exactly when the category is not a key of [UNITS] or the unit
    is not a key of the category's dict; with recognised keys both return a
    number whatever the value is, so a value that is not finite is not
    refused. *)
Theorem to_si_from_si_fail_iff_unrecognised (val : float) (unit cat : string) :
  if recognised unit cat
  then (exists x, to_si val unit cat = Ok x) /\
       (exists y, from_si val unit cat = Ok y)
  else to_si val unit cat = Raise KeyError /\
       from_si val unit cat = Raise KeyError.
Proof.
  unfold recognised, to_si, from_si.
  destruct (String.eqb cat "Temp") eqn:Hcat.
  - apply String.eqb_eq in Hcat; subst cat.
    change (getitem UNITS "Temp")
      with (Ok [("°C", Tag "c"); ("K", Tag "k"); ("°F", Tag "f")]).
    cbv beta iota. rewrite temp_keys.
    cbn -[String.eqb]. rewrite !(String.eqb_sym _ unit).
    destruct (String.eqb unit "°C"); [split; eexists; reflexivity|].
    destruct (String.eqb unit "K"); [split; eexists; reflexivity|].
    destruct (String.eqb unit "°F"); [split; eexists; reflexivity|].
    split; reflexivity.
  - simpl andb. cbv iota.
    destruct (getitem UNITS cat) as [d|e] eqn:Hd.
    + pose proof (units_scales cat d Hcat Hd) as Hall.
      pose proof (getitem_has_key d unit) as Hk.
      simpl bind.
      destruct (has_key d unit).
      * destruct Hk as [f Hf]. rewrite Hf. simpl bind.
        destruct (getitem_scales d unit f Hall Hf) as [s [-> Hs]].
        simpl. rewrite Hs. split; eexists; reflexivity.
      * rewrite Hk. split; reflexivity.
    + pose proof (getitem_has_key UNITS cat) as Hk.
      destruct (has_key UNITS cat).
      * destruct Hk as [v Hv]. congruence.
      * rewrite Hk in Hd. injection Hd as <-. split; reflexivity.
Qed.

(** C6, the claim as stated fails: infinity and nan are not finite, the
    keys are recognised, and both functions return a value. *)
Lemma non_finite_value_is_converted :
  PrimFloat.is_finite PrimFloat.infinity = false /\
  to_si PrimFloat.infinity "mm" "Length" = Ok PrimFloat.infinity /\
  PrimFloat.is_finite PrimFloat.nan = false /\
  from_si PrimFloat.nan "K" "Temp" = Ok PrimFloat.nan.
Proof. repeat split; reflexivity. Qed.

End UnitConverterFacts.

Module MaterialManagerFacts.

Import MaterialManager.
Local Open Scope string_scope.
Local Open Scope list_scope.
Local Open Scope R_scope.

Lemma get_params_absent (data : table) (name : string) :
  ~ In name (get_names data) -> get_params data name = (1.0, 0.0).
Proof.
  induction data as [|d rest IH]; simpl; intros Hnot.
  - reflexivity.
  - destruct (String.eqb_spec (d_name d) name) as [Heq|Hne].
    + exfalso. apply Hnot. now left.
    + apply IH. intros Hin. apply Hnot. now right.
Qed.


Lemma get_names_upsert_present (name : string) (a b : R) (data : table) :
  In name (get_names data) ->
  get_names (upsert name a b data) = get_names data.
Proof.
  induction data as [|d rest IH]; simpl; intros Hin.
  - contradiction.
  - destruct (String.eqb_spec (d_name d) name) as [Heq|Hne]; simpl.
    + reflexivity.
    + f_equal. apply IH. destruct Hin as [Heq|Hin]; [contradiction|exact Hin].
Qed.

Lemma get_names_upsert_absent (name : string) (a b : R) (data : table) :
  ~ In name (get_names data) ->
  get_names (upsert name a b data) = get_names data ++ [name].
Proof.
  induction data as [|d rest IH]; simpl; intros Hnot.
  - reflexivity.
  - destruct (String.eqb_spec (d_name d) name) as [Heq|Hne]; simpl.
    + exfalso. apply Hnot. now left.
    + f_equal. apply IH. intros Hin. apply Hnot. now right.
Qed.

Lemma get_params_upsert_same (name : string) (a b : R) (data : table) :
  get_params (upsert name a b data) name = (a, b).
Proof.
  induction data as [|d rest IH]; simpl.
  - now rewrite String.eqb_refl.
  - destruct (String.eqb_spec (d_name d) name) as [Heq|Hne]; simpl.
    + apply String.eqb_eq in Heq. now rewrite Heq.
    + apply String.eqb_neq in Hne. now rewrite Hne.
Qed.

Lemma length_upsert_present (name : string) (a b : R) (data : table) :
  In name (get_names data) ->
  List.length (upsert name a b data) = List.length data.
Proof.
  intros Hin.
  rewrite <- (length_map d_name (upsert name a b data)).
  change (map d_name (upsert name a b data))
    with (get_names (upsert name a b data)).
  rewrite get_names_upsert_present by exact Hin.
  apply length_map.
Qed.

Lemma get_names_delete (name : string) (data : table) :
  get_names (delete name data) =
  filter (fun n => negb (String.eqb n name)) (get_names data).
Proof.
  induction data as [|d rest IH]; simpl.
  - reflexivity.
  - destruct (String.eqb (d_name d) name); simpl; now rewrite IH.
Qed.

Lemma delete_removes_all (name : string) (data : table) :
  ~ In name (get_names (delete name data)).
Proof.
  rewrite get_names_delete. intros Hin.
  apply filter_In in Hin as [_ Hneq].
  now rewrite String.eqb_refl in Hneq.
Qed.

Lemma delete_keeps_others (name other : string) (data : table) :
  other <> name -> In other (get_names data) ->
  In other (get_names (delete name data)).
Proof.
  intros Hne Hin. rewrite get_names_delete. apply filter_In.
  split; [exact Hin|]. apply negb_true_iff. now apply String.eqb_neq.
Qed.

Lemma NoDup_snoc {A : Type} (l : list A) (x : A) :
  NoDup l -> ~ In x l -> NoDup (l ++ [x]).
Proof.
  induction 1 as [|y l Hy Hl IH]; simpl; intros Hx.
  - constructor; [intros []|constructor].
  - constructor.
    + rewrite in_app_iff. simpl. intros [Hin|[Heq|[]]].
      * contradiction.
      * apply Hx. now left.
    + apply IH. intros Hin. apply Hx. now right.
Qed.

Lemma NoDup_upsert (name : string) (a b : R) (data : table) :
  NoDup (get_names data) -> NoDup (get_names (upsert name a b data)).
Proof.
  intros Hnd. destruct (in_dec string_dec name (get_names data)) as [Hin|Hnot].
  - now rewrite get_names_upsert_present.
  - rewrite get_names_upsert_absent by exact Hnot. now apply NoDup_snoc.
Qed.

Lemma NoDup_delete (name : string) (data : table) :
  NoDup (get_names data) -> NoDup (get_names (delete name data)).
Proof.
  intros Hnd. rewrite get_names_delete. now apply NoDup_filter.
Qed.


(** C8: [rename] leaves the table that [delete] of the old name followed
    by [upsert] of the new one leaves; when the new name already belongs
    to another row, that row's coefficients are overwritten, and no row is
    added: the names are those left by the [delete]. *)
Theorem rename_is_delete_then_upsert
  (old_name new_name : string) (a b : R) (data : table) :
  rename old_name new_name a b data =
    upsert new_name a b (delete old_name data) /\
  (new_name <> old_name -> In new_name (get_names data) ->
   get_params (rename old_name new_name a b data) new_name = (a, b) /\
   get_names (rename old_name new_name a b data) =
     get_names (delete old_name data) /\
   List.length (rename old_name new_name a b data) =
     List.length (delete old_name data)).
Proof.
  split; [reflexivity|]. intros Hne Hin. unfold rename.
  pose proof (delete_keeps_others old_name new_name data Hne Hin) as Hin'.
  repeat split.
  - apply get_params_upsert_same.
  - now apply get_names_upsert_present.
  - now apply length_upsert_present.
Qed.

(** C9: when the names of the table are pairwise distinct they remain so
    after [upsert], after [delete] and after [rename]; [upsert] keeps the
    list of names when the name is present and appends the name when it is
    absent, and [delete] leaves no row with the given name. *)
Theorem name_uniqueness_preserved
  (data : table) (name old_name new_name : string) (a b : R) :
  NoDup (get_names data) ->
  NoDup (get_names (upsert name a b data)) /\
  NoDup (get_names (delete name data)) /\
  NoDup (get_names (rename old_name new_name a b data)) /\
  (In name (get_names data) ->
   get_names (upsert name a b data) = get_names data) /\
  (~ In name (get_names data) ->
   get_names (upsert name a b data) = get_names data ++ [name]) /\
  ~ In name (get_names (delete name data)).
Proof.
  intros Hnd. repeat split.
  - now apply NoDup_upsert.
  - now apply NoDup_delete.
  - unfold rename. now apply NoDup_upsert, NoDup_delete.
  - apply get_names_upsert_present.
  - apply get_names_upsert_absent.
  - apply delete_removes_all.
Qed.

Lemma seed_names_distinct : NoDup (get_names seed).
Proof.
  unfold seed, get_names. simpl map.
  repeat (constructor; [simpl; intuition discriminate|]).
  constructor.
Qed.


(** C8 at the seed table: renaming the second row to the name of the
    first overwrites the first row and adds none. *)
Lemma rename_is_delete_then_upsert_seed :
  get_params (rename "高铝砖" "耐火砖" 1.2 0.0003 seed) "耐火砖" =
    (1.2, 0.0003) /\
  get_names (rename "高铝砖" "耐火砖" 1.2 0.0003 seed) =
    get_names (delete "高铝砖" seed) /\
  List.length (rename "高铝砖" "耐火砖" 1.2 0.0003 seed) =
    List.length (delete "高铝砖" seed).
Proof.
  apply (proj2 (rename_is_delete_then_upsert
                  "高铝砖" "耐火砖" 1.2 0.0003 seed)).
  - discriminate.
  - simpl. auto.
Defined.

(** C9 at the seed table: its names are distinct, and stay distinct when
    the second row is renamed to the name of the first. *)
Lemma name_uniqueness_preserved_seed :
  NoDup (get_names seed) /\
  NoDup (get_names (rename "高铝砖" "耐火砖" 1.2 0.0003 seed)).
Proof.
  split; [exact seed_names_distinct|].
  exact (proj1 (proj2 (proj2
    (name_uniqueness_preserved seed "高铝砖" "高铝砖" "耐火砖" 1.2 0.0003
       seed_names_distinct)))).
Defined.

End MaterialManagerFacts.

Module SolverFacts.

Import Solver.
Local Open Scope list_scope.
Local Open Scope R_scope.

(** *** The partial operations on their domains *)

Lemma pydiv_ok (x y : R) : y <> 0 -> pydiv x y = Ok (x / y).
Proof. intros Hy. unfold pydiv. now destruct (Req_dec_T y 0). Qed.

Lemma pydiv_zero (x : R) : pydiv x 0 = Raise ZeroDivisionError.
Proof. unfold pydiv. now destruct (Req_dec_T 0 0). Qed.

Lemma math_log_ok (x : R) : 0 < x -> math_log x = Ok (ln x).
Proof. intros Hx. unfold math_log. now destruct (Rlt_dec 0 x). Qed.

Lemma math_sqrt_ok (x : R) : 0 <= x -> math_sqrt x = Ok (sqrt x).
Proof. intros Hx. unfold math_sqrt. now destruct (Rle_dec 0 x). Qed.

(** *** The inner fixed-point loop *)

(** The conductivity the loop divides by. *)
Lemma clamp_floor (lam : R) : 0.01 <= (if Rlt_dec lam 0.01 then 0.01 else lam).
Proof. destruct (Rlt_dec lam 0.01); lra. Qed.

Lemma fixed_point_S (n : nat) (l : Layer) (curr term ti : R) :
  fixed_point (S n) l curr term ti =
  (let tavg := (curr + ti) / 2 in
   let lam := l_a l + l_b l * tavg in
   let lam := if Rlt_dec lam 0.01 then 0.01 else lam in
   d <- pydiv term lam ;;
   let tn := curr + d in
   if Rlt_dec (Rabs (tn - ti)) 0.1 then Ok tn
   else fixed_point n l curr term tn).
Proof. reflexivity. Qed.

(** The loop never raises, and with a positive [term] it ends above
    [curr] whenever it started above [curr]. *)
Lemma fixed_point_ok (n : nat) (l : Layer) (curr term : R) :
  forall ti, exists r, fixed_point n l curr term ti = Ok r /\
                       (0 < term -> curr < ti -> curr < r).
Proof.
  induction n as [|n IH]; intros ti.
  - exists ti. split; [reflexivity|tauto].
  - rewrite fixed_point_S. cbv zeta.
    set (lam := if Rlt_dec _ 0.01 then 0.01 else _).
    assert (Hlam : 0.01 <= lam) by apply clamp_floor.
    rewrite pydiv_ok by lra. cbn [bind].
    assert (Hpos : 0 < term -> curr < curr + term / lam).
    { intros Ht. assert (0 < term / lam) by (apply Rdiv_lt_0_compat; lra).
      lra. }
    destruct (Rlt_dec (Rabs (curr + term / lam - ti)) 0.1).
    + eexists. split; [reflexivity|]. intros Ht _. now apply Hpos.
    + destruct (IH (curr + term / lam)) as [r [Hr Hgt]].
      exists r. split; [exact Hr|]. intros Ht _. apply Hgt; auto.
Qed.

(** With [b = 0] and [a] above the clamp, every round computes the same
    [tn], and the loop has left by the end of the second round. *)
Lemma fixed_point_constant (n : nat) (l : Layer) (curr term ti : R) :
  l_b l = 0 -> 0.01 <= l_a l ->
  fixed_point (S (S n)) l curr term ti = Ok (curr + term / l_a l).
Proof.
  intros Hb Ha.
  assert (Hlam : forall t, (if Rlt_dec (l_a l + l_b l * t) 0.01
                            then 0.01 else l_a l + l_b l * t) = l_a l).
  { intros t. rewrite Hb.
    destruct (Rlt_dec (l_a l + 0 * t) 0.01); lra. }
  rewrite fixed_point_S. cbv zeta. rewrite Hlam.
  rewrite pydiv_ok by lra. cbn [bind].
  destruct (Rlt_dec (Rabs (curr + term / l_a l - ti)) 0.1); [reflexivity|].
  rewrite fixed_point_S. cbv zeta. rewrite Hlam.
  rewrite pydiv_ok by lra. cbn [bind].
  destruct (Rlt_dec (Rabs (curr + term / l_a l - (curr + term / l_a l))) 0.1)
    as [_|Hn]; [reflexivity|].
  exfalso. apply Hn.
  replace (curr + term / l_a l - (curr + term / l_a l)) with 0 by lra.
  rewrite Rabs_R0. lra.
Qed.

(** *** One layer *)

Lemma layer_inner_eq (Hh Q : R) (l : Layer) (curr : R) :
  Hh <> 0 -> layer_ok l ->
  layer_inner Hh Q l curr =
  fixed_point 5 l curr ((Q / Hh * ln (l_ro l / l_ri l)) / (2 * PI))
    (curr + 10).
Proof.
  intros HH [Hri Hratio]. unfold layer_inner.
  rewrite (pydiv_ok Q Hh HH). cbn [bind].
  rewrite (pydiv_ok _ _ Hri). cbn [bind].
  rewrite (math_log_ok _ Hratio). reflexivity.
Qed.

Lemma layer_inner_ok (Hh Q : R) (l : Layer) (curr : R) :
  Hh <> 0 -> layer_ok l -> exists ti, layer_inner Hh Q l curr = Ok ti.
Proof.
  intros HH Hl. rewrite layer_inner_eq by assumption.
  destruct (fixed_point_ok 5 l curr
              ((Q / Hh * ln (l_ro l / l_ri l)) / (2 * PI)) (curr + 10))
    as [r [Hr _]].
  now exists r.
Qed.

(** *** The loop over the layers *)

Lemma last_nonempty {A : Type} (x : A) (l : list A) (d d' : A) :
  last (x :: l) d = last (x :: l) d'.
Proof.
  revert x. induction l as [|y l IH]; intros x; [reflexivity|].
  change (last (y :: l) d = last (y :: l) d'). apply IH.
Qed.

Lemma back_propagate_chain (Hh Q : R) (ls : list Layer) :
  forall curr temps c t,
    back_propagate Hh Q ls curr temps = Ok (c, t) ->
    exists new, t = temps ++ new /\ chain Hh Q ls curr new /\
                c = last new curr.
Proof.
  induction ls as [|l ls IH]; simpl; intros curr temps c t Hbp.
  - injection Hbp as <- <-. exists []. rewrite app_nil_r.
    repeat split. constructor.
  - destruct (layer_inner Hh Q l curr) as [ti|e] eqn:Hl; [|discriminate].
    cbn [bind] in Hbp.
    destruct (IH _ _ _ _ Hbp) as (new & -> & Hch & ->).
    exists (ti :: new). rewrite <- app_assoc. repeat split.
    + econstructor; eassumption.
    + destruct new as [|r new]; [reflexivity|].
      change (last (ti :: r :: new) curr) with (last (r :: new) curr).
      apply last_nonempty.
Qed.

Lemma chain_length (Hh Q : R) (ls : list Layer) (curr : R) (new : list R) :
  chain Hh Q ls curr new -> List.length new = List.length ls.
Proof. induction 1; simpl; congruence. Qed.

(** Read from the inside, a chain is a profile. *)
Lemma chain_profile (Hh Q : R) (ls : list Layer) (curr : R) (new : list R) :
  chain Hh Q ls curr new ->
  forall ls' temps, profile Hh Q ls' (curr :: temps) ->
  profile Hh Q (rev ls ++ ls') (rev new ++ curr :: temps).
Proof.
  induction 1 as [curr|l ls curr ti new Hl Hch IH]; intros ls' temps Hp.
  - exact Hp.
  - simpl. rewrite <- !app_assoc. simpl.
    apply IH. simpl. split; assumption.
Qed.

Lemma back_propagate_ok (Hh Q : R) (ls : list Layer) :
  Hh <> 0 -> Forall layer_ok ls ->
  forall curr temps, exists c t, back_propagate Hh Q ls curr temps = Ok (c, t).
Proof.
  intros HH Hall. induction Hall as [|l ls Hl _ IH]; intros curr temps; simpl.
  - eauto.
  - destruct (layer_inner_ok Hh Q l curr HH Hl) as [ti ->]. cbn [bind].
    apply IH.
Qed.

Lemma back_propagate_no_height (Q : R) (l : Layer) (ls : list Layer)
  (curr : R) (temps : list R) :
  back_propagate 0 Q (l :: ls) curr temps = Raise ZeroDivisionError.
Proof. simpl. unfold layer_inner. now rewrite pydiv_zero. Qed.

(** With a positive [term] every layer ends above the temperature it
    started from. *)
Lemma layer_inner_above (Hh Q : R) (l : Layer) (curr ti : R) :
  Hh <> 0 -> layer_ok l ->
  0 < (Q / Hh * ln (l_ro l / l_ri l)) / (2 * PI) ->
  layer_inner Hh Q l curr = Ok ti -> curr < ti.
Proof.
  intros HH Hl Hterm. rewrite layer_inner_eq by assumption. intros Hfp.
  destruct (fixed_point_ok 5 l curr
              ((Q / Hh * ln (l_ro l / l_ri l)) / (2 * PI)) (curr + 10))
    as [r [Hr Hgt]].
  rewrite Hr in Hfp. injection Hfp as <-. apply Hgt; lra.
Qed.

Lemma closed_form_drop (Hh Q a ratio : R) :
  Hh <> 0 -> a <> 0 ->
  Q * ln ratio / (2 * PI * Hh * a) = (Q / Hh) * ln ratio / (2 * PI) / a.
Proof. intros HH Ha. pose proof PI_RGT_0. field. repeat split; lra. Qed.

Lemma back_propagate_single (Hh Q curr : R) (l : Layer) :
  l_b l = 0 -> 0.01 <= l_a l -> Hh <> 0 -> layer_ok l ->
  back_propagate Hh Q [l] curr [curr] =
    Ok (curr + Q * ln (l_ro l / l_ri l) / (2 * PI * Hh * l_a l),
        [curr; curr + Q * ln (l_ro l / l_ri l) / (2 * PI * Hh * l_a l)]).
Proof.
  intros Hb Ha HH Hl. simpl. rewrite layer_inner_eq by assumption.
  rewrite (fixed_point_constant 3) by assumption.
  cbn [bind app]. rewrite closed_form_drop by lra. reflexivity.
Qed.

(** C2: for a stack of one layer whose conductivity is constant ([b = 0])
    and not below the clamp ([a >= 0.01]), the conduction step from an
    outer face at [curr] with heat loss [Q] returns
    [curr + Q * ln (ro / ri) / (2 * pi * H * a)]: the drop is the
    closed-form value, computed as [(Q / H) * ln (ro / ri) / (2 * pi)]
    divided by [a], and the fixed-point loop has left by its second
    round. *)
Theorem single_layer_constant_conductivity (Hh Q curr : R) (l : Layer) :
  l_b l = 0 -> 0.01 <= l_a l -> Hh <> 0 -> layer_ok l ->
  back_propagate Hh Q [l] curr [curr] =
    Ok (curr + Q * ln (l_ro l / l_ri l) / (2 * PI * Hh * l_a l),
        [curr; curr + Q * ln (l_ro l / l_ri l) / (2 * PI * Hh * l_a l)]) /\
  Q * ln (l_ro l / l_ri l) / (2 * PI * Hh * l_a l) =
    (Q / Hh) * ln (l_ro l / l_ri l) / (2 * PI) / l_a l /\
  fixed_point 2 l curr ((Q / Hh) * ln (l_ro l / l_ri l) / (2 * PI))
    (curr + 10) =
    Ok (curr + Q * ln (l_ro l / l_ri l) / (2 * PI * Hh * l_a l)).
Proof.
  intros Hb Ha HH Hl. repeat split.
  - now apply back_propagate_single.
  - apply closed_form_drop; lra.
  - rewrite (fixed_point_constant 0) by assumption.
    rewrite closed_form_drop by lra. reflexivity.
Qed.

(** *** The layer stack *)

Lemma build_layers_length (mats : MaterialManager.table)
  (items : list LayerItem) :
  forall r, List.length (fst (build_layers mats r items)) = List.length items.
Proof.
  induction items as [|item rest IH]; intros r; simpl.
  - reflexivity.
  - destruct (MaterialManager.get_params mats (item_nm item)) as [asi bsi].
    specialize (IH (r + item_tsi item)).
    destruct (build_layers mats (r + item_tsi item) rest) as [ls r'].
    simpl in *. now rewrite IH.
Qed.

(** Positive thicknesses on a positive bore give radii that grow. *)
Lemma build_layers_radii (mats : MaterialManager.table)
  (items : list LayerItem) :
  Forall (fun item => 0 < item_tsi item) items ->
  forall r, 0 < r ->
    Forall (fun l => 0 < l_ri l < l_ro l) (fst (build_layers mats r items)) /\
    0 < snd (build_layers mats r items).
Proof.
  induction 1 as [|item rest Hitem _ IH]; intros r Hr; simpl.
  - split; [constructor|exact Hr].
  - destruct (MaterialManager.get_params mats (item_nm item)) as [asi bsi].
    assert (Hrn : 0 < r + item_tsi item) by lra.
    specialize (IH _ Hrn).
    destruct (build_layers mats (r + item_tsi item) rest) as [ls r'].
    simpl in *. destruct IH as [IHl IHr]. split; [|exact IHr].
    constructor; [simpl; lra|exact IHl].
Qed.

Lemma growing_radii_ok (l : Layer) : 0 < l_ri l < l_ro l -> layer_ok l.
Proof.
  intros [Hri Hro]. split; [lra|].
  apply Rdiv_lt_0_compat; lra.
Qed.

Lemma growing_radii_ln (l : Layer) :
  0 < l_ri l < l_ro l -> 0 < ln (l_ro l / l_ri l).
Proof.
  intros [Hri Hro]. rewrite <- ln_1. apply ln_increasing; [lra|].
  apply Rmult_lt_reg_r with (l_ri l); [exact Hri|].
  unfold Rdiv. rewrite Rmult_assoc, Rinv_l by lra. lra.
Qed.

Section Facts.

Variable mat_mgr : MaterialManager.table.
Variable inp : Inputs.

Lemma physical_layers :
  physical inp ->
  Forall (fun l => 0 < l_ri l < l_ro l) (layers mat_mgr inp) /\
  0 < rc mat_mgr inp.
Proof.
  intros (HD & _ & _ & Hitems). unfold layers, rc.
  apply build_layers_radii; [exact Hitems|lra].
Qed.

Lemma physical_layers_ok :
  physical inp -> Forall layer_ok (rev (layers mat_mgr inp)).
Proof.
  intros Hp. apply Forall_rev.
  eapply Forall_impl; [|exact (proj1 (physical_layers Hp))].
  intros l. apply growing_radii_ok.
Qed.

Lemma physical_Aout : physical inp -> 0 < Aout mat_mgr inp.
Proof.
  intros Hp. destruct (physical_layers Hp) as [_ Hrc].
  destruct Hp as (_ & HH & _). unfold Aout.
  pose proof PI_RGT_0 as Hpi.
  apply Rmult_lt_0_compat; [|exact HH].
  apply Rmult_lt_0_compat; [|exact Hrc].
  lra.
Qed.

(** *** One round of the outer loop *)

Lemma clamp_dt (dt : R) : 1e-3 <= (if Rlt_dec dt 1e-3 then 1e-3 else dt).
Proof. destruct (Rlt_dec dt 1e-3); lra. Qed.

Lemma evaluate_eq (xi ts : R) :
  evaluate mat_mgr inp xi ts =
  (let dt := if Rlt_dec (ts - ta inp) 1e-3 then 1e-3 else ts - ta inp in
   let hconv := Cpos inp * Rpower dt 0.25 * xi in
   let hrad := eps inp * 5.67e-8 *
               ((ts + 273.15) ^ 4 - (ta inp + 273.15) ^ 4) / dt in
   let htot := hconv + hrad in
   let Q := htot * Aout mat_mgr inp * dt in
   ct <- back_propagate (H inp) Q (rev (layers mat_mgr inp)) ts [ts] ;;
   Ok (mkEval hconv hrad htot Q (fst ct) (snd ct))).
Proof.
  unfold evaluate. cbv zeta.
  pose proof (clamp_dt (ts - ta inp)) as Hdt.
  rewrite pydiv_ok by lra. reflexivity.
Qed.

Lemma evaluate_ok (xi ts : R) :
  H inp <> 0 -> Forall layer_ok (rev (layers mat_mgr inp)) ->
  exists ev, evaluate mat_mgr inp xi ts = Ok ev.
Proof.
  intros HH Hall. rewrite evaluate_eq. cbv zeta.
  match goal with
  | |- context [back_propagate ?h ?q ?ls ?c ?t] =>
      destruct (back_propagate_ok h q ls HH Hall c t) as (c' & t' & ->)
  end.
  cbn [bind]. eauto.
Qed.

(** The temperatures of a round start at [ts] and follow the layers
    inwards; [curr] is the last of them. *)
Lemma evaluate_chain (xi ts : R) (ev : Evaluation) :
  evaluate mat_mgr inp xi ts = Ok ev ->
  exists new,
    e_temps ev = ts :: new /\
    chain (H inp) (e_Q ev) (rev (layers mat_mgr inp)) ts new /\
    e_curr ev = last new ts.
Proof.
  rewrite evaluate_eq. cbv zeta.
  match goal with
  | |- context [back_propagate ?h ?q ?ls ?c ?t] =>
      destruct (back_propagate h q ls c t) as [[c' t']|e] eqn:Hbp
  end; [|discriminate].
  cbn [bind fst snd]. intros Hev. injection Hev as <-.
  destruct (back_propagate_chain _ _ _ _ _ _ _ Hbp) as (new & -> & Hch & ->).
  exists new. simpl. auto.
Qed.

Lemma evaluate_no_height (xi ts : R) :
  H inp = 0 -> layers mat_mgr inp <> [] ->
  evaluate mat_mgr inp xi ts = Raise ZeroDivisionError.
Proof.
  intros HH Hne. rewrite evaluate_eq. cbv zeta. rewrite HH.
  destruct (rev (layers mat_mgr inp)) as [|l ls] eqn:Hrev.
  - exfalso. apply Hne. apply (f_equal (@rev Layer)) in Hrev.
    now rewrite rev_involutive in Hrev.
  - now rewrite back_propagate_no_height.
Qed.

(** *** The result record *)

Lemma make_result_fields (xi vtot ts : R) (ev : Evaluation)
  (r : ThermalResult) :
  make_result mat_mgr inp xi vtot ts ev = Ok r ->
  r_ts r = ts /\ r_Q r = e_Q ev /\ r_temps r = rev (e_temps ev) /\
  r_xi r = xi /\ r_v_tot r = vtot.
Proof.
  unfold make_result.
  destruct (pydiv (e_Q ev) (Aout mat_mgr inp)) as [q|e]; [|discriminate].
  cbn [bind]. intros Hr. injection Hr as <-. simpl. auto.
Qed.

Lemma make_result_ok (xi vtot ts : R) (ev : Evaluation) :
  Aout mat_mgr inp <> 0 ->
  exists r, make_result mat_mgr inp xi vtot ts ev = Ok r.
Proof.
  intros HA. unfold make_result. rewrite pydiv_ok by exact HA.
  cbn [bind]. eauto.
Qed.

(** *** The bisection *)

Lemma bisect_S (n : nat) (xi vtot low high : R) :
  bisect mat_mgr inp (S n) xi vtot low high =
  (let ts := (low + high) / 2 in
   match evaluate mat_mgr inp xi ts with
   | Raise e => CalcError e
   | Ok ev =>
       let low' := if Rlt_dec (e_curr ev) (t0 inp) then ts else low in
       let high' := if Rlt_dec (e_curr ev) (t0 inp) then high else ts in
       if Rlt_dec (Rabs (high' - low')) 0.05 then
         match make_result mat_mgr inp xi vtot ts ev with
         | Raise e => CalcError e
         | Ok r => Converged r
         end
       else bisect mat_mgr inp n xi vtot low' high'
   end).
Proof. reflexivity. Qed.

(** Whichever end moves to the midpoint, the width of the bracket is
    halved. *)
Lemma halved_width (P : Prop) (c : {P} + {~ P}) (low high : R) :
  Rabs ((if c then high else (low + high) / 2) -
        (if c then (low + high) / 2 else low)) = Rabs (high - low) / 2.
Proof.
  destruct c.
  - replace (high - (low + high) / 2) with ((high - low) / 2) by lra.
    unfold Rabs. repeat destruct Rcase_abs; lra.
  - replace ((low + high) / 2 - low) with ((high - low) / 2) by lra.
    unfold Rabs. repeat destruct Rcase_abs; lra.
Qed.

(** A result comes from the round that closed the bracket. *)
Lemma bisect_result (n : nat) (xi vtot : R) (r : ThermalResult) :
  forall low high,
    bisect mat_mgr inp n xi vtot low high = Converged r ->
    exists ev, evaluate mat_mgr inp xi (r_ts r) = Ok ev /\
               make_result mat_mgr inp xi vtot (r_ts r) ev = Ok r.
Proof.
  induction n as [|n IH]; intros low high; [discriminate|].
  rewrite bisect_S. cbv zeta.
  destruct (evaluate mat_mgr inp xi ((low + high) / 2)) as [ev|e] eqn:Hev;
    [|discriminate].
  destruct (Rlt_dec (Rabs _) 0.05).
  - destruct (make_result mat_mgr inp xi vtot ((low + high) / 2) ev)
      as [r'|e] eqn:Hr; [|discriminate].
    intros Heq. injection Heq as ->.
    destruct (make_result_fields _ _ _ _ _ Hr) as (Hts & _).
    rewrite Hts. eauto.
  - apply IH.
Qed.

(** From an ordered bracket the surface temperature of a result is the
    midpoint of an ordered bracket inside it. *)
Lemma bisect_bracket (n : nat) (xi vtot : R) (r : ThermalResult) :
  forall low high,
    low < high ->
    bisect mat_mgr inp n xi vtot low high = Converged r ->
    exists lo hi, low <= lo /\ lo < hi /\ hi <= high /\
                  r_ts r = (lo + hi) / 2.
Proof.
  induction n as [|n IH]; intros low high Hlt; [discriminate|].
  rewrite bisect_S. cbv zeta.
  destruct (evaluate mat_mgr inp xi ((low + high) / 2)) as [ev|e];
    [|discriminate].
  destruct (Rlt_dec (Rabs _) 0.05).
  - destruct (make_result mat_mgr inp xi vtot ((low + high) / 2) ev)
      as [r'|e] eqn:Hr; [|discriminate].
    intros Heq. injection Heq as ->.
    destruct (make_result_fields _ _ _ _ _ Hr) as (Hts & _).
    exists low, high. rewrite Hts. repeat split; lra.
  - intros Hb. destruct (Rlt_dec (e_curr ev) (t0 inp)).
    + apply IH in Hb; [|lra]. destruct Hb as (lo & hi & ? & ? & ? & ?).
      exists lo, hi. repeat split; try assumption; lra.
    + apply IH in Hb; [|lra]. destruct Hb as (lo & hi & ? & ? & ? & ?).
      exists lo, hi. repeat split; try assumption; lra.
Qed.


(** A bracket narrower than [0.05 * 2 ^ n] closes within [n] rounds: the
    loop does not run out. *)
Lemma bisect_closes (n : nat) (xi vtot : R) :
  forall low high,
    Rabs (high - low) < 0.05 * 2 ^ S n ->
    bisect mat_mgr inp (S n) xi vtot low high <> NotConverged.
Proof.
  induction n as [|n IH]; intros low high Hw; rewrite bisect_S; cbv zeta;
    destruct (evaluate mat_mgr inp xi ((low + high) / 2)) as [ev|e];
    try discriminate;
    rewrite halved_width.
  - destruct (Rlt_dec (Rabs (high - low) / 2) 0.05) as [_|Hn].
    + destruct (make_result mat_mgr inp xi vtot ((low + high) / 2) ev);
        discriminate.
    + exfalso. apply Hn. simpl in Hw. lra.
  - destruct (Rlt_dec (Rabs (high - low) / 2) 0.05) as [_|Hn].
    + destruct (make_result mat_mgr inp xi vtot ((low + high) / 2) ev);
        discriminate.
    + apply IH. rewrite halved_width.
      change (2 ^ S (S n)) with (2 * 2 ^ S n) in Hw. lra.
Qed.

(** When no round raises, the loop ends with a result. *)
Lemma bisect_converges (n : nat) (xi vtot : R) :
  (forall ts, exists ev, evaluate mat_mgr inp xi ts = Ok ev) ->
  Aout mat_mgr inp <> 0 ->
  forall low high,
    Rabs (high - low) < 0.05 * 2 ^ S n ->
    exists r, bisect mat_mgr inp (S n) xi vtot low high = Converged r.
Proof.
  intros Hev HA low high Hw.
  pose proof (bisect_closes n xi vtot low high Hw) as Hnot.
  destruct (bisect mat_mgr inp (S n) xi vtot low high) as [r| |e] eqn:Hb.
  - eauto.
  - contradiction.
  - exfalso. clear Hnot Hw. revert low high Hb.
    generalize (S n) as m.
    induction m as [|m IH]; intros low high; [discriminate|].
    rewrite bisect_S. cbv zeta.
    destruct (Hev ((low + high) / 2)) as [ev ->].
    destruct (Rlt_dec (Rabs _) 0.05) as [Hc|Hc].
    + destruct (make_result_ok xi vtot ((low + high) / 2) ev HA) as [r ->].
      discriminate.
    + apply IH.
Qed.

(** *** Air velocity and correction factor *)

Lemma vfan_value :
  exists vf, vfan inp = Ok vf /\ 0 <= vf /\
    (0 < q_si inp /\ 0 < fdia inp ->
     vf = q_si inp / (PI * (fdia inp / 2) ^ 2)) /\
    (~ (0 < q_si inp /\ 0 < fdia inp) -> vf = 0).
Proof.
  unfold vfan.
  destruct (Rlt_dec 0 (q_si inp)) as [Hq|Hq];
    [destruct (Rlt_dec 0 (fdia inp)) as [Hd|Hd]|].
  - assert (Hden : 0 < PI * (fdia inp / 2) ^ 2).
    { apply Rmult_lt_0_compat; [exact PI_RGT_0|]. apply pow_lt. lra. }
    rewrite pydiv_ok by lra.
    eexists. split; [reflexivity|]. repeat split.
    + left. now apply Rdiv_lt_0_compat.
    + tauto.
  - exists 0. repeat split; try lra; tauto.
  - exists 0. repeat split; try lra; tauto.
Qed.

Lemma correction_factor_ge_1 (vtot : R) :
  0 <= vtot -> 1 <= sqrt ((vtot + 0.348) / 0.348).
Proof.
  intros Hv. rewrite <- sqrt_1 at 1. apply sqrt_le_1_alt. lra.
Qed.

Lemma velocity_eq (vf : R) :
  vfan inp = Ok vf -> -0.348 <= vnat inp + vf ->
  velocity inp =
  Ok (vf, vnat inp + vf, sqrt ((vnat inp + vf + 0.348) / 0.348)).
Proof.
  intros Hvf Hv. unfold velocity. rewrite Hvf. cbn [bind].
  rewrite math_sqrt_ok; [reflexivity|].
  apply Rmult_le_reg_r with 0.348; [lra|].
  unfold Rdiv. rewrite Rmult_assoc, Rinv_l by lra. lra.
Qed.

Lemma velocity_fields (vf vtot xi : R) :
  velocity inp = Ok (vf, vtot, xi) ->
  vfan inp = Ok vf /\ vtot = vnat inp + vf /\
  xi = sqrt ((vtot + 0.348) / 0.348).
Proof.
  unfold velocity. destruct (vfan inp) as [vf'|e]; [|discriminate].
  cbn [bind].
  destruct (math_sqrt ((vnat inp + vf' + 0.348) / 0.348)) as [x|e] eqn:Hx;
    [|discriminate].
  cbn [bind]. intros Heq. injection Heq as <- <- <-.
  unfold math_sqrt in Hx.
  destruct (Rle_dec 0 ((vnat inp + vf' + 0.348) / 0.348)); [|discriminate].
  injection Hx as <-. auto.
Qed.

Lemma physical_velocity :
  physical inp ->
  exists vf vtot xi, velocity inp = Ok (vf, vtot, xi).
Proof.
  intros (_ & _ & Hv & _).
  destruct vfan_value as (vf & Hvf & Hpos & _).
  rewrite (velocity_eq vf Hvf) by lra. eauto.
Qed.

(** *** The whole call *)

Lemma calculate_eq (vf vtot xi : R) :
  velocity inp = Ok (vf, vtot, xi) ->
  calculate mat_mgr inp = bisect mat_mgr inp 60 xi vtot (ta inp) (t0 inp).
Proof. intros Hv. unfold calculate. now rewrite Hv. Qed.

Lemma calculate_bisect (r : ThermalResult) :
  calculate mat_mgr inp = Converged r ->
  exists vf vtot xi,
    velocity inp = Ok (vf, vtot, xi) /\
    bisect mat_mgr inp 60 xi vtot (ta inp) (t0 inp) = Converged r.
Proof.
  unfold calculate.
  destruct (velocity inp) as [[[vf vtot] xi]|e]; [|discriminate].
  intros Hb. eauto 6.
Qed.


Lemma calculate_converges :
  physical inp -> Rabs (t0 inp - ta inp) < 0.05 * 2 ^ 60 ->
  exists r, calculate mat_mgr inp = Converged r.
Proof.
  intros Hp Hw.
  destruct (physical_velocity Hp) as (vf & vtot & xi & Hv).
  rewrite (calculate_eq _ _ _ Hv).
  apply bisect_converges; [| |exact Hw].
  - intros ts. apply evaluate_ok; [|now apply physical_layers_ok].
    destruct Hp as (_ & HH & _). lra.
  - pose proof (physical_Aout Hp). lra.
Qed.

(** *** Properties of a call *)

Lemma hd_rev_app {A : Type} (l : list A) :
  forall (x d : A) (t : list A), hd d (rev l ++ x :: t) = last l x.
Proof.
  induction l as [|a l IH]; intros x d t; [reflexivity|].
  simpl rev. rewrite <- app_assoc. simpl app. rewrite IH.
  destruct l as [|b l]; [reflexivity|].
  change (last (a :: b :: l) x) with (last (b :: l) x).
  apply last_nonempty.
Qed.

Lemma result_temps_head (xi vtot ts : R) (ev : Evaluation)
  (r : ThermalResult) :
  evaluate mat_mgr inp xi ts = Ok ev ->
  make_result mat_mgr inp xi vtot ts ev = Ok r ->
  hd 0 (r_temps r) = e_curr ev.
Proof.
  intros Hev Hres.
  destruct (make_result_fields _ _ _ _ _ Hres) as (_ & _ & -> & _).
  destruct (evaluate_chain _ _ _ Hev) as (new & -> & _ & ->).
  simpl rev. apply hd_rev_app.
Qed.


(** C3 (amended): the temperatures of a result run from the innermost
    face to the outer surface: there is one more of them than there are
    layers, the last is the surface temperature [ts], and each of the
    others is the inner-face temperature that the conduction step
    reconstructs for its layer from the entry after it.  The first entry
    is thus the inner-wall temperature reconstructed in the closing round
    ([curr]), not the input [t0]. *)
Theorem interface_temperatures_shape (r : ThermalResult) :
  calculate mat_mgr inp = Converged r ->
  List.length (r_temps r) = S (List.length (layer_controls inp)) /\
  last (r_temps r) 0 = r_ts r /\
  profile (H inp) (r_Q r) (layers mat_mgr inp) (r_temps r) /\
  exists xi ev, evaluate mat_mgr inp xi (r_ts r) = Ok ev /\
                hd 0 (r_temps r) = e_curr ev.
Proof.
  intros Hr.
  destruct (calculate_bisect r Hr) as (vf & vtot & xi & _ & Hb).
  destruct (bisect_result _ _ _ _ _ _ Hb) as (ev & Hev & Hres).
  destruct (make_result_fields _ _ _ _ _ Hres) as (_ & HQ & Htemps & _).
  destruct (evaluate_chain _ _ _ Hev) as (new & Hnew & Hch & Hcurr).
  rewrite Htemps, Hnew, HQ. simpl rev. repeat split.
  - rewrite length_app, length_rev, (chain_length _ _ _ _ _ Hch).
    rewrite length_rev. unfold layers. rewrite build_layers_length.
    simpl. lia.
  - apply last_last.
  - pose proof (chain_profile _ _ _ _ _ Hch [] [] I) as Hp.
    now rewrite rev_involutive, app_nil_r in Hp.
  - exists xi, ev. split; [exact Hev|].
    rewrite Hcurr. apply hd_rev_app.
Qed.


(** C5 (amended): the fan velocity is [q / (pi * (d / 2) ^ 2)] when the
    flow and the diameter are both positive and 0 otherwise, the total
    velocity is [vnat + vfan] and the factor is
    [sqrt ((vtot + 0.348) / 0.348)]; these are the values a result
    carries.  The factor is at least 1 whenever the total velocity is not
    negative. *)
Theorem fan_velocity_and_correction_factor :
  exists vf,
    vfan inp = Ok vf /\
    (0 < q_si inp /\ 0 < fdia inp ->
     vf = q_si inp / (PI * (fdia inp / 2) ^ 2)) /\
    (~ (0 < q_si inp /\ 0 < fdia inp) -> vf = 0) /\
    (0 <= vnat inp + vf ->
     velocity inp =
       Ok (vf, vnat inp + vf, sqrt ((vnat inp + vf + 0.348) / 0.348)) /\
     1 <= sqrt ((vnat inp + vf + 0.348) / 0.348)) /\
    (forall r, calculate mat_mgr inp = Converged r ->
       r_v_tot r = vnat inp + vf /\
       r_xi r = sqrt ((r_v_tot r + 0.348) / 0.348)).
Proof.
  destruct vfan_value as (vf & Hvf & Hpos & Hon & Hoff).
  exists vf.
  split; [exact Hvf|]. split; [exact Hon|]. split; [exact Hoff|]. split.
  - intros Hv. split.
    + apply velocity_eq; [exact Hvf|lra].
    + now apply correction_factor_ge_1.
  - intros r Hr.
    destruct (calculate_bisect r Hr) as (vf' & vtot & xi & Hv & Hb).
    destruct (velocity_fields _ _ _ Hv) as (Hvf' & Hvtot & Hxi).
    destruct (bisect_result _ _ _ _ _ _ Hb) as (ev & _ & Hres).
    destruct (make_result_fields _ _ _ _ _ Hres) as (_ & _ & _ & -> & ->).
    split; [congruence|exact Hxi].
Qed.


End Facts.

(** *** The scenarios *)

Import Scenarios.
Import MaterialManager.

Lemma physical_reference : physical reference.
Proof.
  unfold physical, reference; simpl. repeat split; try lra.
  repeat constructor; simpl; lra.
Qed.


Lemma physical_lukewarm : physical lukewarm.
Proof.
  unfold physical, lukewarm; simpl. repeat split; try lra.
  repeat constructor; simpl; lra.
Qed.

Lemma reference_width :
  Rabs (t0 reference - ta reference) < 0.05 * 2 ^ 60.
Proof. simpl. unfold Rabs. destruct Rcase_abs; lra. Qed.



(** C2 at a layer of constant conductivity 0.8 between the radii 0.75 and
    0.865. *)
Lemma single_layer_constant_conductivity_example :
  back_propagate 3 1000 [mkLayer 0.8 0 0.75 0.865 "brick"%string 0.115] 60 [60] =
  Ok (60 + 1000 * ln (0.865 / 0.75) / (2 * PI * 3 * 0.8),
      [60; 60 + 1000 * ln (0.865 / 0.75) / (2 * PI * 3 * 0.8)]).
Proof.
  apply (single_layer_constant_conductivity 3 1000 60
           (mkLayer 0.8 0 0.75 0.865 "brick"%string 0.115)); simpl.
  - reflexivity.
  - lra.
  - lra.
  - split; simpl; lra.
Defined.

(** C3 (amended) at the scenario of the specification. *)
Lemma interface_temperatures_shape_reference :
  exists r, calculate seed reference = Converged r /\
            List.length (r_temps r) = 2%nat /\
            last (r_temps r) 0 = r_ts r.
Proof.
  destruct (calculate_converges seed reference physical_reference
              reference_width) as [r Hr].
  exists r. split; [exact Hr|].
  destruct (interface_temperatures_shape seed reference r Hr)
    as (Hlen & Hlast & _).
  split; [exact Hlen|exact Hlast].
Defined.




(** C5, the claim as stated fails: with an air velocity of -0.2 m/s and no
    fan the factor is computed and is below 1. *)
Lemma headwind_factor_below_1 :
  exists vf vtot xi, velocity headwind = Ok (vf, vtot, xi) /\ xi < 1.
Proof.
  destruct (vfan_value headwind) as (vf & Hvf & _ & _ & Hoff).
  assert (Hzero : vf = 0).
  { apply Hoff. intros [Hq _]. revert Hq.
    change (q_si headwind) with (0 / 3600.0). lra. }
  subst vf.
  exists 0, (vnat headwind + 0),
    (sqrt ((vnat headwind + 0 + 0.348) / 0.348)).
  split.
  - apply velocity_eq; [exact Hvf|simpl; lra].
  - rewrite <- sqrt_1. apply sqrt_lt_1_alt. simpl. lra.
Qed.

(** *** A wall barely above ambient *)

Lemma ln_lower (x : R) : 0 < x -> 1 - / x <= ln x.
Proof.
  intros Hx. pose proof (exp_ineq1_le (- ln x)) as Hexp.
  rewrite exp_Ropp, exp_ln in Hexp by exact Hx. lra.
Qed.

Lemma Rpower_quarter_lower (c x : R) :
  0 < c -> c ^ 4 <= x -> c <= Rpower x 0.25.
Proof.
  intros Hc Hx.
  assert (Hroot : Rpower (c ^ 4) 0.25 = c).
  { rewrite <- (Rpower_pow 4 c Hc), Rpower_mult.
    replace (INR 4 * 0.25) with 1 by (simpl; lra).
    now apply Rpower_1. }
  rewrite <- Hroot at 1. apply Rle_Rpower_l; [lra|].
  split; [now apply pow_lt|exact Hx].
Qed.

Lemma cancel_height (X L A Hh d a : R) :
  Hh <> 0 -> a <> 0 ->
  X * (2 * PI * A * Hh) * d * L / (2 * PI * Hh * a) = X * L * (A * d / a).
Proof. intros HH Ha. pose proof PI_RGT_0. field. repeat split; lra. Qed.

Lemma lukewarm_layers :
  layers insulator_table lukewarm =
  [mkLayer 0.01 0 (1.5 / 2) (1.5 / 2 + 0.75) "insulator" 0.75].
Proof. reflexivity. Qed.

Lemma lukewarm_Aout :
  Aout insulator_table lukewarm = 2 * PI * (1.5 / 2 + 0.75) * 3.
Proof. reflexivity. Qed.

Lemma lukewarm_Cpos : Cpos lukewarm = 2.2.
Proof. reflexivity. Qed.

(** In every round whose [ts] lies inside the bracket, the inner wall is
    reconstructed more than a hundredth of a degree above [ts]. *)
Lemma lukewarm_inner_wall (xi ts : R) (ev : Evaluation) :
  1 <= xi -> 25 < ts < 25.001 ->
  evaluate insulator_table lukewarm xi ts = Ok ev ->
  25.001 < e_curr ev.
Proof.
  intros Hxi Hts. rewrite evaluate_eq. cbv zeta.
  rewrite lukewarm_layers, lukewarm_Aout, lukewarm_Cpos.
  change (ta lukewarm) with 25. change (eps lukewarm) with 0.9.
  change (H lukewarm) with 3.
  destruct (Rlt_dec (ts - 25) 1e-3) as [_|Hn]; [|exfalso; lra].
  simpl rev.
  rewrite back_propagate_single;
    [|reflexivity|simpl; lra|lra|split; simpl; lra].
  cbn [bind fst snd]. intros Hev. injection Hev as <-. simpl.
  set (hconv := 2.2 * Rpower 1e-3 0.25 * xi).
  set (hrad := 0.9 * 5.67e-8 * _ / 1e-3).
  set (L := ln ((1.5 / 2 + 0.75) / (1.5 / 2))).
  assert (Hpow : 0.1 <= Rpower 1e-3 0.25).
  { apply Rpower_quarter_lower; lra. }
  assert (Hconv : 0.22 <= hconv).
  { unfold hconv. nra. }
  assert (Hrad : 0 <= hrad).
  { unfold hrad.
    assert (Hmono : (25 + 273.15) ^ 4 <= (ts + 273.15) ^ 4).
    { apply pow_incr. lra. }
    apply Rmult_le_pos; [|lra].
    apply Rmult_le_pos; lra. }
  assert (HL : 0.5 <= L).
  { unfold L. replace ((1.5 / 2 + 0.75) / (1.5 / 2)) with 2 by lra.
    pose proof (ln_lower 2 ltac:(lra)). lra. }
  clearbody hconv hrad L.
  rewrite cancel_height by lra.
  replace ((1.5 / 2 + 0.75) * 1e-3 / 0.01) with 0.15 by lra.
  nra.
Qed.

(** C3, the claim as stated fails: the call converges with [ta < t0], and
    the first temperature of the result is not [t0]. *)
Lemma lukewarm_first_entry_is_not_t0 :
  ta lukewarm < t0 lukewarm /\
  exists r, calculate insulator_table lukewarm = Converged r /\
            hd 0 (r_temps r) <> t0 lukewarm.
Proof.
  split; [simpl; lra|].
  destruct (calculate_converges insulator_table lukewarm physical_lukewarm)
    as [r Hr].
  { simpl. unfold Rabs. destruct Rcase_abs; lra. }
  exists r. split; [exact Hr|].
  destruct (calculate_bisect _ _ r Hr) as (vf & vtot & xi & Hv & Hb).
  destruct (velocity_fields _ _ _ _ Hv) as (Hvf & Hvtot & Hxi).
  destruct (vfan_value lukewarm) as (vf' & Hvf' & Hpos & _).
  assert (vf' = vf) by congruence. subst vf'.
  assert (H1 : 1 <= xi).
  { rewrite Hxi. apply correction_factor_ge_1. rewrite Hvtot. simpl. lra. }
  pose proof Hb as Hbr. apply bisect_bracket in Hbr; [|simpl; lra].
  destruct Hbr as (lo & hi & Hlo & Hlohi & Hhi & Hts).
  simpl in Hlo, Hhi.
  destruct (bisect_result _ _ _ _ _ _ _ _ Hb) as (ev & Hev & Hres).
  rewrite (result_temps_head _ _ _ _ _ _ _ Hev Hres).
  pose proof (lukewarm_inner_wall xi (r_ts r) ev H1 ltac:(lra) Hev) as Hgt.
  simpl. lra.
Qed.

End SolverFacts.

(** ** More about the material table *)

Module MaterialManagerMore.

Import MaterialManager.
Local Open Scope string_scope.
Local Open Scope list_scope.
Local Open Scope R_scope.

Lemma get_params_upsert_other (name other : string) (a b : R) (data : table) :
  other <> name ->
  get_params (upsert name a b data) other = get_params data other.
Proof.
  intros Hne. induction data as [|d rest IH]; simpl.
  - apply String.eqb_neq in Hne. rewrite String.eqb_sym. now rewrite Hne.
  - destruct (String.eqb_spec (d_name d) name) as [Heq|Hneq]; simpl.
    + rewrite Heq.
      assert (Hf : String.eqb name other = false).
      { apply String.eqb_neq. congruence. }
      now rewrite Hf.
    + now rewrite IH.
Qed.

Lemma get_params_delete_other (name other : string) (data : table) :
  other <> name ->
  get_params (delete name data) other = get_params data other.
Proof.
  intros Hne. induction data as [|d rest IH]; simpl; [reflexivity|].
  destruct (String.eqb_spec (d_name d) name) as [Heq|Hneq]; simpl.
  - assert (Hf : String.eqb (d_name d) other = false).
    { apply String.eqb_neq. congruence. }
    now rewrite Hf.
  - now rewrite IH.
Qed.

Lemma delete_absent (name : string) (data : table) :
  ~ In name (get_names data) -> delete name data = data.
Proof.
  induction data as [|d rest IH]; simpl; intros Hnot; [reflexivity|].
  destruct (String.eqb_spec (d_name d) name) as [Heq|Hneq]; simpl.
  - exfalso. apply Hnot. now left.
  - f_equal. apply IH. intros Hin. apply Hnot. now right.
Qed.

(** X1: a lookup after [upsert] returns the coefficients just written,
    whatever the table held, and the lookup of every other name is what it
    was before. *)
Theorem upsert_then_get_params (name : string) (a b : R) (data : table) :
  get_params (upsert name a b data) name = (a, b) /\
  forall other, other <> name ->
    get_params (upsert name a b data) other = get_params data other.
Proof.
  split.
  - apply MaterialManagerFacts.get_params_upsert_same.
  - intros other Hne. now apply get_params_upsert_other.
Qed.

(** X2: after [delete] the lookup of the deleted name falls back to the
    default pair [(1.0, 0.0)], even when several rows carried the name, and
    the lookup of every other name is what it was before. *)
Theorem delete_then_get_params (name : string) (data : table) :
  get_params (delete name data) name = (1.0, 0.0) /\
  forall other, other <> name ->
    get_params (delete name data) other = get_params data other.
Proof.
  split.
  - apply MaterialManagerFacts.get_params_absent.
    apply MaterialManagerFacts.delete_removes_all.
  - intros other Hne. now apply get_params_delete_other.
Qed.

(** X3: [delete] leaves the table as it is exactly when no row carries the
    name, and deleting a second time changes nothing. *)
Theorem delete_noop_iff_absent (name : string) (data : table) :
  (delete name data = data <-> ~ In name (get_names data)) /\
  delete name (delete name data) = delete name data.
Proof.
  split; [split|].
  - intros Heq. rewrite <- Heq.
    apply MaterialManagerFacts.delete_removes_all.
  - apply delete_absent.
  - apply delete_absent. apply MaterialManagerFacts.delete_removes_all.
Qed.

(** X4: renaming to a name that no other row carries puts the renamed
    material at the end of the table: the names are the old ones without
    the old name, followed by the new name.  The new name looks up the
    coefficients given, and every third name looks up what it did. *)
Theorem rename_moves_to_end
  (old_name new_name : string) (a b : R) (data : table) :
  ~ In new_name (get_names (delete old_name data)) ->
  get_names (rename old_name new_name a b data) =
    get_names (delete old_name data) ++ [new_name] /\
  get_params (rename old_name new_name a b data) new_name = (a, b) /\
  forall other, other <> old_name -> other <> new_name ->
    get_params (rename old_name new_name a b data) other =
    get_params data other.
Proof.
  intros Hfree. unfold rename. repeat split.
  - now apply MaterialManagerFacts.get_names_upsert_absent.
  - apply MaterialManagerFacts.get_params_upsert_same.
  - intros other Hold Hnew.
    rewrite get_params_upsert_other by exact Hnew.
    now apply get_params_delete_other.
Qed.

(** The second seed row renamed to a name the table does not hold. *)
Lemma rename_moves_to_end_seed :
  get_names (rename "高铝砖" "刚玉砖" 3.0 0.0004 seed) =
    get_names (delete "高铝砖" seed) ++ ["刚玉砖"].
Proof.
  apply (rename_moves_to_end "高铝砖" "刚玉砖" 3.0 0.0004 seed).
  simpl. intuition discriminate.
Defined.

(** X5: renaming a name that no row carries deletes nothing: it is an
    [upsert] of the new name, so a row is created or overwritten. *)
Theorem rename_absent_is_upsert
  (old_name new_name : string) (a b : R) (data : table) :
  ~ In old_name (get_names data) ->
  rename old_name new_name a b data = upsert new_name a b data.
Proof.
  intros Hnot. unfold rename. now rewrite delete_absent.
Qed.

Lemma rename_absent_is_upsert_seed :
  rename "unknown" "刚玉砖" 3.0 0.0004 seed = upsert "刚玉砖" 3.0 0.0004 seed.
Proof.
  apply (rename_absent_is_upsert "unknown" "刚玉砖" 3.0 0.0004 seed).
  simpl. intuition discriminate.
Defined.

(** X6: of two [upsert]s of one name the later wins, and the first leaves
    no trace: the table is the one the later alone would give. *)
Theorem upsert_last_write_wins (name : string) (a b a' b' : R) (data : table) :
  upsert name a b (upsert name a' b' data) = upsert name a b data.
Proof.
  induction data as [|d rest IH]; simpl.
  - now rewrite String.eqb_refl.
  - destruct (String.eqb_spec (d_name d) name) as [Heq|Hneq]; simpl.
    + apply String.eqb_eq in Heq. now rewrite Heq.
    + apply String.eqb_neq in Hneq. rewrite Hneq. now rewrite IH.
Qed.

End MaterialManagerMore.

(** ** More about the solver *)

Module SolverMore.

Import Solver.
Import SolverFacts.
Import Stack.
Local Open Scope list_scope.
Local Open Scope R_scope.

(** *** The layer stack *)

Lemma fold_left_Rplus (xs : list R) :
  forall r, fold_left Rplus xs r = r + Drawing.pysum xs.
Proof.
  unfold Drawing.pysum.
  induction xs as [|x xs IH]; intros r; simpl.
  - lra.
  - rewrite (IH (r + x)), (IH (0 + x)). lra.
Qed.

Lemma build_layers_contiguous (mats : MaterialManager.table)
  (items : list LayerItem) :
  forall r,
    contiguous r (fst (build_layers mats r items))
                 (snd (build_layers mats r items)) /\
    snd (build_layers mats r items) =
      fold_left Rplus (map item_tsi items) r /\
    map l_nm (fst (build_layers mats r items)) = map item_nm items /\
    map l_thick_si (fst (build_layers mats r items)) = map item_tsi items /\
    Forall (fun l => (l_a l, l_b l) =
                     MaterialManager.get_params mats (l_nm l))
           (fst (build_layers mats r items)).
Proof.
  induction items as [|item rest IH]; intros r; simpl.
  - repeat split; constructor.
  - destruct (MaterialManager.get_params mats (item_nm item))
      as [asi bsi] eqn:Hget.
    specialize (IH (r + item_tsi item)).
    destruct (build_layers mats (r + item_tsi item) rest) as [ls r'].
    simpl in *. destruct IH as (Hc & Hr & Hn & Ht & Hp).
    repeat split; try assumption; try congruence.
    constructor; [simpl; now rewrite Hget|exact Hp].
Qed.


(** X7: the layers [calculate] builds sit on one another from the bore
    outwards: the first starts at [D/2], each ends where the next starts
    and is as thick as entered, and the outer radius used for the surface
    area is [D/2] plus the sum of the thicknesses.  Names are kept in order
    and every layer carries the coefficients the table gives for its name. *)
Theorem layer_stack_geometry (mat_mgr : MaterialManager.table) (inp : Inputs) :
  contiguous (D inp / 2) (layers mat_mgr inp) (rc mat_mgr inp) /\
  rc mat_mgr inp =
    D inp / 2 + Drawing.pysum (map item_tsi (layer_controls inp)) /\
  map l_nm (layers mat_mgr inp) = map item_nm (layer_controls inp) /\
  map l_thick_si (layers mat_mgr inp) =
    map item_tsi (layer_controls inp) /\
  Forall (fun l => (l_a l, l_b l) =
                   MaterialManager.get_params mat_mgr (l_nm l))
         (layers mat_mgr inp).
Proof.
  unfold layers, rc.
  destruct (build_layers_contiguous mat_mgr (layer_controls inp) (D inp / 2))
    as (Hc & Hr & Hn & Ht & Hp).
  repeat split; try assumption.
  rewrite Hr. apply fold_left_Rplus.
Qed.

(** *** The clamp of the conductivity *)

Lemma fixed_point_bounded (n : nat) (l : Layer) (curr term : R) :
  forall ti, exists r,
    fixed_point (S n) l curr term ti = Ok r /\
    Rabs (r - curr) <= 100 * Rabs term /\
    (0 <= term -> curr <= r) /\ (term <= 0 -> r <= curr).
Proof.
  induction n as [|n IH]; intros ti; rewrite fixed_point_S; cbv zeta;
    set (lam := if Rlt_dec _ 0.01 then 0.01 else _);
    assert (Hlam : 0.01 <= lam) by apply clamp_floor;
    rewrite pydiv_ok by lra; cbn [bind];
    assert (Hbound : Rabs (curr + term / lam - curr) <= 100 * Rabs term /\
                     (0 <= term -> curr <= curr + term / lam) /\
                     (term <= 0 -> curr + term / lam <= curr)).
  1,3: replace (curr + term / lam - curr) with (term / lam) by lra;
       assert (Hinv : 0 < / lam <= 100)
         by (split; [apply Rinv_0_lt_compat; lra|];
             replace 100 with (/ 0.01) by lra;
             apply Rinv_le_contravar; lra);
       unfold Rdiv; rewrite Rabs_mult, (Rabs_pos_eq (/ lam)) by lra;
       pose proof (Rabs_pos term);
       repeat split; try intros Hs; nra.
  - destruct (Rlt_dec (Rabs (curr + term / lam - ti)) 0.1);
      eexists; (split; [reflexivity|exact Hbound]).
  - destruct (Rlt_dec (Rabs (curr + term / lam - ti)) 0.1).
    + eexists; (split; [reflexivity|exact Hbound]).
    + apply IH.
Qed.

(** X8: whatever the conductivity law of the layer, the clamp at 0.01
    keeps the inner loop from raising and bounds what it returns: the
    reconstructed inner face differs from the outer face [curr] by at most
    [100 * |term|], on the side the sign of [term] says. *)
Theorem conduction_step_bounded (Hh Q : R) (l : Layer) (curr : R) :
  Hh <> 0 -> layer_ok l ->
  exists ti,
    layer_inner Hh Q l curr = Ok ti /\
    Rabs (ti - curr) <=
      100 * Rabs (Q / Hh * ln (l_ro l / l_ri l) / (2 * PI)) /\
    (0 <= Q / Hh * ln (l_ro l / l_ri l) / (2 * PI) -> curr <= ti).
Proof.
  intros HH Hl. rewrite layer_inner_eq by assumption.
  destruct (fixed_point_bounded 4 l curr
              (Q / Hh * ln (l_ro l / l_ri l) / (2 * PI)) (curr + 10))
    as (r & Hr & Hb & Hpos & _).
  exists r. auto.
Qed.

(** A layer whose law is negative throughout: steel far above the range
    of its fit. *)
Lemma conduction_step_bounded_example :
  exists ti,
    layer_inner 3 1000 (mkLayer 45.0 (-0.02) 0.98 1.0 "steel" 0.02) 5000
      = Ok ti /\
    Rabs (ti - 5000) <= 100 * Rabs (1000 / 3 * ln (1.0 / 0.98) / (2 * PI)).
Proof.
  destruct (conduction_step_bounded 3 1000
              (mkLayer 45.0 (-0.02) 0.98 1.0 "steel" 0.02) 5000)
    as (ti & Hti & Hb & _).
  - lra.
  - split; simpl; lra.
  - exists ti. split; [exact Hti|exact Hb].
Defined.

(** *** What a round and a result hold *)

Lemma evaluate_fields (mat_mgr : MaterialManager.table) (inp : Inputs)
  (xi ts : R) (ev : Evaluation) :
  evaluate mat_mgr inp xi ts = Ok ev ->
  let dt := if Rlt_dec (ts - ta inp) 1e-3 then 1e-3 else ts - ta inp in
  e_hconv ev = Cpos inp * Rpower dt 0.25 * xi /\
  e_hrad ev = eps inp * 5.67e-8 *
              ((ts + 273.15) ^ 4 - (ta inp + 273.15) ^ 4) / dt /\
  e_htot ev = e_hconv ev + e_hrad ev /\
  e_Q ev = e_htot ev * Aout mat_mgr inp * dt.
Proof.
  rewrite evaluate_eq. cbv zeta.
  match goal with
  | |- context [back_propagate ?h ?q ?ls ?c ?t] =>
      destruct (back_propagate h q ls c t) as [ct|e]
  end; [|discriminate].
  cbn [bind]. intros Hev. injection Hev as <-. simpl. auto.
Qed.

Lemma make_result_all (mat_mgr : MaterialManager.table) (inp : Inputs)
  (xi vtot ts : R) (ev : Evaluation) (r : ThermalResult) :
  make_result mat_mgr inp xi vtot ts ev = Ok r ->
  Aout mat_mgr inp <> 0 /\
  r = mkResult (e_Q ev) (e_Q ev / Aout mat_mgr inp) ts (e_htot ev)
        (e_hconv ev) (e_hrad ev) xi vtot (rev (e_temps ev))
        (Aout mat_mgr inp).
Proof.
  unfold make_result, pydiv.
  destruct (Req_dec_T (Aout mat_mgr inp) 0) as [|Hne]; [discriminate|].
  cbn [bind]. intros Hr. injection Hr as <-. auto.
Qed.

Lemma Cpos_positive (inp : Inputs) : 0 < Cpos inp.
Proof.
  unfold Cpos.
  destruct (contains _ (pos_val inp)); [lra|].
  destruct (contains _ (pos_val inp)); lra.
Qed.

Lemma Rpower_positive (x y : R) : 0 < Rpower x y.
Proof. unfold Rpower. apply exp_pos. Qed.

(** X9: what a result holds fits together: with [dt] the difference
    [ts - ta] clamped at 0.001, the combined coefficient is the sum of the
    convective and radiative ones, each is the formula of its line, the
    heat loss is [h_tot * Aout * dt] over the area [2 * pi * rc * H], which
    is not zero, and the flux [q] is [h_tot * dt]. *)
Theorem result_energy_balance (mat_mgr : MaterialManager.table)
  (inp : Inputs) (r : ThermalResult) :
  calculate mat_mgr inp = Converged r ->
  let dt := if Rlt_dec (r_ts r - ta inp) 1e-3 then 1e-3
            else r_ts r - ta inp in
  r_h_tot r = r_h_conv r + r_h_rad r /\
  r_h_conv r = Cpos inp * Rpower dt 0.25 * r_xi r /\
  r_h_rad r = eps inp * 5.67e-8 *
              ((r_ts r + 273.15) ^ 4 - (ta inp + 273.15) ^ 4) / dt /\
  r_Aout r = 2 * PI * rc mat_mgr inp * H inp /\
  r_Aout r <> 0 /\
  r_Q r = r_h_tot r * r_Aout r * dt /\
  r_q r = r_h_tot r * dt.
Proof.
  intros Hr. cbv zeta.
  destruct (calculate_bisect _ _ r Hr) as (vf & vtot & xi & _ & Hb).
  destruct (bisect_result _ _ _ _ _ _ _ _ Hb) as (ev & Hev & Hres).
  destruct (make_result_all _ _ _ _ _ _ _ Hres) as (HA & Hrec).
  destruct (evaluate_fields _ _ _ _ _ Hev) as (Hc & Hd & Ht & HQ).
  pose proof (f_equal r_Q Hrec) as EQ. pose proof (f_equal r_q Hrec) as Eq.
  pose proof (f_equal r_h_tot Hrec) as Et.
  pose proof (f_equal r_h_conv Hrec) as Ec.
  pose proof (f_equal r_h_rad Hrec) as Er.
  pose proof (f_equal r_xi Hrec) as Ex.
  pose proof (f_equal r_Aout Hrec) as EA.
  simpl in EQ, Eq, Et, Ec, Er, Ex, EA.
  rewrite EQ, Eq, Et, Ec, Er, Ex, EA.
  repeat split; try assumption; try reflexivity.
  rewrite HQ. field. exact HA.
Qed.

Lemma result_energy_balance_reference :
  exists r, calculate MaterialManager.seed Scenarios.reference = Converged r /\
            r_q r * r_Aout r = r_Q r.
Proof.
  destruct (calculate_converges MaterialManager.seed Scenarios.reference
              physical_reference reference_width) as [r Hr].
  exists r. split; [exact Hr|].
  destruct (result_energy_balance MaterialManager.seed Scenarios.reference
              r Hr) as (_ & _ & _ & _ & _ & HQ & Hq).
  rewrite HQ, Hq. ring.
Defined.

(** *** Temperatures fall from the inner wall outwards *)

Lemma chain_rising (Hh Q : R) (ls : list Layer) (curr : R) (new : list R) :
  chain Hh Q ls curr new ->
  Hh <> 0 -> 0 < Q / Hh ->
  Forall (fun l => 0 < l_ri l < l_ro l) ls ->
  forall acc, falling (curr :: acc) -> falling (rev new ++ curr :: acc).
Proof.
  intros Hch HH HQ.
  induction Hch as [curr|l ls curr ti new Hl Hch IH]; intros Hall acc Hacc.
  - exact Hacc.
  - inversion Hall as [|l' ls' Hrad Hrest]; subst.
    simpl rev. rewrite <- app_assoc. simpl app.
    apply IH; [exact Hrest|].
    simpl. split; [|exact Hacc].
    apply (layer_inner_above Hh Q l curr ti HH (growing_radii_ok l Hrad));
      [|exact Hl].
    pose proof (growing_radii_ln l Hrad) as Hln. pose proof PI_RGT_0 as Hpi.
    apply Rdiv_lt_0_compat; [|lra].
    now apply Rmult_lt_0_compat.
Qed.

(** X10: on physical inputs with a non-negative air velocity and
    emissivity, an ambient temperature not below absolute zero and
    [ta < t0], the heat loss of a result is positive and its temperatures
    fall strictly from the inner wall to the outer surface. *)
Theorem temperatures_fall_outwards (mat_mgr : MaterialManager.table)
  (inp : Inputs) (r : ThermalResult) :
  physical inp -> 0 <= vnat inp -> 0 <= eps inp -> -273.15 <= ta inp ->
  ta inp < t0 inp ->
  calculate mat_mgr inp = Converged r ->
  0 < r_Q r /\ falling (r_temps r).
Proof.
  intros Hp Hv Heps Hta Hlt Hr.
  destruct (calculate_bisect _ _ r Hr) as (vf & vtot & xi & Hvel & Hb).
  destruct (velocity_fields _ _ _ _ Hvel) as (Hvf & Hvtot & Hxi).
  destruct (vfan_value inp) as (vf' & Hvf' & Hpos & _).
  assert (vf' = vf) by congruence. subst vf'.
  assert (H1 : 1 <= xi).
  { rewrite Hxi. apply correction_factor_ge_1. lra. }
  pose proof Hb as Hbr. apply bisect_bracket in Hbr; [|exact Hlt].
  destruct Hbr as (lo & hi & Hlo & Hlohi & Hhi & Hts).
  destruct (bisect_result _ _ _ _ _ _ _ _ Hb) as (ev & Hev & Hres).
  destruct (make_result_all _ _ _ _ _ _ _ Hres) as (HA & Hrec).
  destruct (evaluate_fields _ _ _ _ _ Hev) as (Hc & Hd & Ht & HQ).
  set (dt := if Rlt_dec (r_ts r - ta inp) 1e-3 then 1e-3
             else r_ts r - ta inp) in *.
  assert (Hdt : 1e-3 <= dt) by apply clamp_dt.
  pose proof (physical_Aout mat_mgr inp Hp) as HAout.
  assert (Hconv : 0 < e_hconv ev).
  { rewrite Hc. pose proof (Cpos_positive inp).
    pose proof (Rpower_positive dt 0.25).
    apply Rmult_lt_0_compat; [|lra]. now apply Rmult_lt_0_compat. }
  assert (Hrad : 0 <= e_hrad ev).
  { rewrite Hd.
    assert (Hmono : (ta inp + 273.15) ^ 4 <= (r_ts r + 273.15) ^ 4).
    { apply pow_incr. lra. }
    unfold Rdiv. apply Rmult_le_pos;
      [|left; apply Rinv_0_lt_compat; lra].
    apply Rmult_le_pos; [|lra].
    apply Rmult_le_pos; lra. }
  assert (HQpos : 0 < e_Q ev).
  { rewrite HQ, Ht.
    apply Rmult_lt_0_compat; [|lra]. apply Rmult_lt_0_compat; lra. }
  destruct (evaluate_chain _ _ _ _ _ Hev) as (new & Hnew & Hch & _).
  rewrite Hrec. simpl. split; [exact HQpos|].
  rewrite Hnew. simpl rev.
  destruct Hp as (HD & HH & Hvn & Hitems).
  apply (chain_rising (H inp) (e_Q ev) _ _ _ Hch); [lra| | |exact I].
  - apply Rdiv_lt_0_compat; lra.
  - apply Forall_rev.
    exact (proj1 (physical_layers mat_mgr inp
                    (conj HD (conj HH (conj Hvn Hitems))))).
Qed.

Lemma physical_two_layers : physical MoreScenarios.two_layers.
Proof.
  unfold physical, MoreScenarios.two_layers; simpl. repeat split; try lra.
  repeat constructor; simpl; lra.
Qed.

(** The two layers the program starts with. *)
Lemma temperatures_fall_outwards_two_layers :
  exists r, calculate MaterialManager.seed MoreScenarios.two_layers
              = Converged r /\
            0 < r_Q r /\ falling (r_temps r).
Proof.
  destruct (calculate_converges MaterialManager.seed
              MoreScenarios.two_layers physical_two_layers) as [r Hr].
  { simpl. unfold Rabs. destruct Rcase_abs; lra. }
  exists r. split; [exact Hr|].
  apply (temperatures_fall_outwards MaterialManager.seed
           MoreScenarios.two_layers r physical_two_layers);
    try (simpl; lra). exact Hr.
Defined.

(** *** How close the bracket is when the loop leaves *)

Lemma bisect_bracket_width (mat_mgr : MaterialManager.table) (inp : Inputs)
  (n : nat) (xi vtot : R) (r : ThermalResult) :
  forall low high,
    low < high ->
    bisect mat_mgr inp n xi vtot low high = Converged r ->
    exists lo hi, low <= lo /\ lo < hi /\ hi <= high /\
                  r_ts r = (lo + hi) / 2 /\ hi - lo < 0.1.
Proof.
  induction n as [|n IH]; intros low high Hlt; [discriminate|].
  rewrite bisect_S. cbv zeta.
  destruct (evaluate mat_mgr inp xi ((low + high) / 2)) as [ev|e];
    [|discriminate].
  rewrite halved_width.
  destruct (Rlt_dec (Rabs (high - low) / 2) 0.05) as [Hc|Hc].
  - destruct (make_result mat_mgr inp xi vtot ((low + high) / 2) ev)
      as [r'|e] eqn:Hr; [|discriminate].
    intros Heq. injection Heq as ->.
    destruct (make_result_fields _ _ _ _ _ _ _ Hr) as (Hts & _).
    exists low, high. rewrite Hts.
    rewrite Rabs_pos_eq in Hc by lra.
    repeat split; lra.
  - intros Hb. destruct (Rlt_dec (e_curr ev) (t0 inp)).
    + apply IH in Hb; [|lra].
      destruct Hb as (lo & hi & ? & ? & ? & ? & ?).
      exists lo, hi. repeat split; try assumption; lra.
    + apply IH in Hb; [|lra].
      destruct Hb as (lo & hi & ? & ? & ? & ? & ?).
      exists lo, hi. repeat split; try assumption; lra.
Qed.

(** X11: with [ta < t0], the surface temperature of a result is the
    midpoint of a bracket within [[ta, t0]] that is less than 0.1 wide:
    both ends of the bracket that was halved last lie within 0.05 of it. *)
Theorem surface_temperature_within_tolerance
  (mat_mgr : MaterialManager.table) (inp : Inputs) (r : ThermalResult) :
  ta inp < t0 inp -> calculate mat_mgr inp = Converged r ->
  exists lo hi, ta inp <= lo /\ hi <= t0 inp /\
                r_ts r = (lo + hi) / 2 /\
                r_ts r - lo < 0.05 /\ hi - r_ts r < 0.05.
Proof.
  intros Hlt Hr.
  destruct (calculate_bisect _ _ r Hr) as (vf & vtot & xi & _ & Hb).
  destruct (bisect_bracket_width _ _ _ _ _ _ _ _ Hlt Hb)
    as (lo & hi & H1 & H2 & H3 & H4 & H5).
  exists lo, hi. repeat split; try assumption; lra.
Qed.

Lemma surface_temperature_within_tolerance_reference :
  exists r lo hi,
    calculate MaterialManager.seed Scenarios.reference = Converged r /\
    r_ts r - lo < 0.05 /\ hi - r_ts r < 0.05.
Proof.
  destruct (calculate_converges MaterialManager.seed Scenarios.reference
              physical_reference reference_width) as [r Hr].
  destruct (surface_temperature_within_tolerance MaterialManager.seed
              Scenarios.reference r) as (lo & hi & _ & _ & _ & Hlo & Hhi).
  - simpl. lra.
  - exact Hr.
  - exists r, lo, hi. auto.
Defined.

(** *** Inputs on which the arithmetic raises *)

Lemma vfan_nonneg (inp : Inputs) : exists vf, vfan inp = Ok vf /\ 0 <= vf.
Proof. destruct (vfan_value inp) as (vf & Hvf & Hpos & _). eauto. Qed.

(** X12: an air velocity that brings [v_total] below -0.348 makes the
    square root raise: the call ends with the [ValueError] caught, before
    any round of the bisection. *)
Theorem strong_headwind_is_an_error (mat_mgr : MaterialManager.table)
  (inp : Inputs) (vf : R) :
  vfan inp = Ok vf -> vnat inp + vf < -0.348 ->
  calculate mat_mgr inp = CalcError ValueError.
Proof.
  intros Hvf Hv. unfold calculate, velocity. rewrite Hvf. cbn [bind].
  unfold math_sqrt.
  destruct (Rle_dec 0 ((vnat inp + vf + 0.348) / 0.348)) as [Hle|_];
    [|reflexivity].
  exfalso. apply (Rmult_le_compat_r 0.348) in Hle; [|lra].
  unfold Rdiv in Hle. rewrite Rmult_assoc, Rinv_l in Hle by lra. lra.
Qed.

Lemma strong_headwind_is_an_error_gale :
  calculate MaterialManager.seed MoreScenarios.gale = CalcError ValueError.
Proof.
  apply (strong_headwind_is_an_error MaterialManager.seed
           MoreScenarios.gale 0).
  - unfold vfan.
    change (q_si MoreScenarios.gale) with (0 / 3600.0).
    destruct (Rlt_dec 0 (0 / 3600.0)) as [Hq|_]; [exfalso; lra|reflexivity].
  - simpl. lra.
Defined.

Lemma first_round (mat_mgr : MaterialManager.table) (inp : Inputs) (e : exn) :
  -0.348 <= vnat inp ->
  (forall xi ts, evaluate mat_mgr inp xi ts = Raise e) ->
  calculate mat_mgr inp = CalcError e.
Proof.
  intros Hv Hev.
  destruct (vfan_nonneg inp) as (vf & Hvf & Hpos).
  rewrite (calculate_eq mat_mgr inp vf _ _
             (velocity_eq inp vf Hvf ltac:(lra))).
  change 60%nat with (S 59). rewrite bisect_S. cbv zeta.
  now rewrite Hev.
Qed.

(** X13: with a height of zero and at least one layer, every call that
    gets past the square root ends with the division [Q / H] caught as a
    [ZeroDivisionError]: no result is stored. *)
Theorem zero_height_is_an_error (mat_mgr : MaterialManager.table)
  (inp : Inputs) :
  H inp = 0 -> layer_controls inp <> [] -> -0.348 <= vnat inp ->
  calculate mat_mgr inp = CalcError ZeroDivisionError.
Proof.
  intros HH Hne Hv. apply first_round; [exact Hv|].
  intros xi ts. apply evaluate_no_height; [exact HH|].
  intros Hnil. apply Hne.
  apply (f_equal (@List.length Layer)) in Hnil.
  unfold layers in Hnil. rewrite build_layers_length in Hnil.
  destruct (layer_controls inp); [reflexivity|discriminate].
Qed.

Lemma zero_height_is_an_error_no_height :
  calculate MaterialManager.seed Scenarios.no_height
    = CalcError ZeroDivisionError.
Proof.
  apply (zero_height_is_an_error MaterialManager.seed Scenarios.no_height).
  - reflexivity.
  - discriminate.
  - simpl. lra.
Defined.

Lemma back_propagate_app (Hh Q : R) (ls1 ls2 : list Layer) :
  forall curr temps,
    back_propagate Hh Q (ls1 ++ ls2) curr temps =
    (ct <- back_propagate Hh Q ls1 curr temps ;;
     back_propagate Hh Q ls2 (fst ct) (snd ct)).
Proof.
  induction ls1 as [|l ls1 IH]; intros curr temps; simpl.
  - reflexivity.
  - destruct (layer_inner Hh Q l curr) as [ti|e]; cbn [bind].
    + apply IH.
    + reflexivity.
Qed.

Lemma layer_inner_no_radius (Hh Q : R) (l : Layer) (curr : R) :
  Hh <> 0 -> l_ri l = 0 ->
  layer_inner Hh Q l curr = Raise ZeroDivisionError.
Proof.
  intros HH Hri. unfold layer_inner.
  rewrite (pydiv_ok Q Hh HH). cbn [bind].
  rewrite Hri, pydiv_zero. reflexivity.
Qed.

(** X14: with a bore diameter of zero, a height other than zero and
    layers of positive thickness, the outer layers are computed and the
    innermost one divides by its inner radius 0: the call ends with the
    [ZeroDivisionError] caught. *)
Theorem zero_bore_is_an_error (mat_mgr : MaterialManager.table)
  (inp : Inputs) :
  D inp = 0 -> H inp <> 0 -> layer_controls inp <> [] ->
  Forall (fun item => 0 < item_tsi item) (layer_controls inp) ->
  -0.348 <= vnat inp ->
  calculate mat_mgr inp = CalcError ZeroDivisionError.
Proof.
  intros HD HH Hne Hitems Hv. apply first_round; [exact Hv|].
  intros xi ts. rewrite evaluate_eq. cbv zeta.
  unfold layers. rewrite HD.
  destruct (layer_controls inp) as [|item rest]; [contradiction|].
  inversion Hitems as [|i r Hitem Hrest]; subst.
  simpl build_layers.
  destruct (MaterialManager.get_params mat_mgr (item_nm item)) as [asi bsi].
  pose proof (build_layers_radii mat_mgr rest Hrest (0 / 2 + item_tsi item)
                ltac:(lra)) as [Hrad _].
  destruct (build_layers mat_mgr (0 / 2 + item_tsi item) rest) as [ls r'].
  simpl fst in *. simpl rev.
  rewrite back_propagate_app.
  assert (Hok : Forall layer_ok (rev ls)).
  { apply Forall_rev. eapply Forall_impl; [|exact Hrad].
    intros l. apply growing_radii_ok. }
  match goal with
  | |- context [back_propagate ?h ?q (rev ls) ?c ?t] =>
      destruct (back_propagate_ok h q (rev ls) HH Hok c t) as (c' & t' & ->)
  end.
  cbn [bind fst snd]. simpl back_propagate.
  rewrite layer_inner_no_radius; [reflexivity|exact HH|simpl; lra].
Qed.

Lemma zero_bore_is_an_error_no_bore :
  calculate MaterialManager.seed MoreScenarios.no_bore
    = CalcError ZeroDivisionError.
Proof.
  apply (zero_bore_is_an_error MaterialManager.seed MoreScenarios.no_bore).
  - reflexivity.
  - simpl. lra.
  - discriminate.
  - repeat constructor; simpl; lra.
  - simpl. lra.
Defined.

(** *** No layer at all *)

Lemma bisect_bare (mat_mgr : MaterialManager.table) (inp : Inputs)
  (n : nat) (xi vtot : R) (r : ThermalResult) :
  layers mat_mgr inp = [] ->
  forall low,
    low < t0 inp ->
    bisect mat_mgr inp n xi vtot low (t0 inp) = Converged r ->
    r_temps r = [r_ts r] /\ t0 inp - 0.05 < r_ts r < t0 inp.
Proof.
  intros Hnil. induction n as [|n IH]; intros low Hlt; [discriminate|].
  rewrite bisect_S. cbv zeta. rewrite evaluate_eq. cbv zeta.
  rewrite Hnil. simpl rev. simpl back_propagate. cbn [bind fst snd e_curr].
  destruct (Rlt_dec ((low + t0 inp) / 2) (t0 inp)) as [_|Hn];
    [|exfalso; lra].
  destruct (Rlt_dec (Rabs (t0 inp - (low + t0 inp) / 2)) 0.05) as [Hc|Hc].
  - match goal with
    | |- context [make_result ?m ?i ?x ?v ?t ?e] =>
        destruct (make_result m i x v t e) as [r'|e'] eqn:Hr
    end; [|discriminate].
    intros Heq. injection Heq as ->.
    destruct (make_result_fields _ _ _ _ _ _ _ Hr) as (Hts & _ & Htemps & _).
    rewrite Htemps, Hts. simpl. split; [reflexivity|].
    rewrite Rabs_pos_eq in Hc by lra. lra.
  - intros Hb. apply IH in Hb; [exact Hb|lra].
Qed.

(** X15: with no layer at all the call does not fail for lack of layers:
    with [ta < t0] a result has the surface temperature as its only
    temperature, less than 0.05 below [t0]. *)
Theorem no_layers_surface_is_the_wall (mat_mgr : MaterialManager.table)
  (inp : Inputs) (r : ThermalResult) :
  layer_controls inp = [] -> ta inp < t0 inp ->
  calculate mat_mgr inp = Converged r ->
  r_temps r = [r_ts r] /\ t0 inp - 0.05 < r_ts r < t0 inp.
Proof.
  intros Hnil Hlt Hr.
  destruct (calculate_bisect _ _ r Hr) as (vf & vtot & xi & _ & Hb).
  apply (bisect_bare mat_mgr inp 60 xi vtot r) with (low := ta inp);
    [|exact Hlt|exact Hb].
  unfold layers. now rewrite Hnil.
Qed.

Lemma physical_bare : physical MoreScenarios.bare.
Proof.
  unfold physical, MoreScenarios.bare; simpl. repeat split; try lra.
  constructor.
Qed.

Lemma no_layers_surface_is_the_wall_bare :
  exists r, calculate MaterialManager.seed MoreScenarios.bare = Converged r /\
            r_temps r = [r_ts r] /\
            t0 MoreScenarios.bare - 0.05 < r_ts r < t0 MoreScenarios.bare.
Proof.
  destruct (calculate_converges MaterialManager.seed MoreScenarios.bare
              physical_bare) as [r Hr].
  { simpl. unfold Rabs. destruct Rcase_abs; lra. }
  exists r. split; [exact Hr|].
  apply (no_layers_surface_is_the_wall MaterialManager.seed
           MoreScenarios.bare r); [reflexivity|simpl; lra|exact Hr].
Defined.

End SolverMore.

(** ** The picture and the stored result *)

Module DrawingFacts.

Import Solver.
Import SolverFacts.
Import SolverMore.
Import Drawing.
Import App.
Local Open Scope list_scope.
Local Open Scope R_scope.

(** *** Sums *)

Lemma pysum_cons (x : R) (xs : list R) : pysum (x :: xs) = x + pysum xs.
Proof. unfold pysum at 1. simpl. rewrite fold_left_Rplus. lra. Qed.

Lemma pysum_app (xs ys : list R) : pysum (xs ++ ys) = pysum xs + pysum ys.
Proof.
  induction xs as [|x xs IH]; simpl.
  - unfold pysum at 2. simpl. lra.
  - rewrite !pysum_cons, IH. lra.
Qed.

Lemma pysum_rev (xs : list R) : pysum (rev xs) = pysum xs.
Proof.
  induction xs as [|x xs IH]; simpl; [reflexivity|].
  rewrite pysum_app, IH, !pysum_cons. unfold pysum at 2. simpl. lra.
Qed.

Lemma map_snd_enumerate {A : Type} (l : list A) : map snd (enumerate l) = l.
Proof.
  unfold enumerate. generalize 0%nat.
  induction l as [|a l IH]; intros k; simpl; [reflexivity|].
  now rewrite IH.
Qed.

Lemma length_enumerate {A : Type} (l : list A) :
  List.length (enumerate l) = List.length l.
Proof.
  rewrite <- (length_map snd). now rewrite map_snd_enumerate.
Qed.

(** *** The rings *)

Lemma ring_shapes_length (scale : R) (todo : list (nat * Layer)) :
  forall c, List.length (fst (ring_shapes scale c todo)) =
            (2 * List.length todo)%nat.
Proof.
  induction todo as [|[i l] rest IH]; intros c; simpl; [reflexivity|].
  specialize (IH (c - (l_ro l - l_ri l))).
  destruct (ring_shapes scale (c - (l_ro l - l_ri l)) rest) as [shapes f].
  simpl in *. lia.
Qed.

Lemma ring_shapes_final (scale : R) (todo : list (nat * Layer)) :
  forall c, snd (ring_shapes scale c todo) =
            c - pysum (ts_list (map snd todo)).
Proof.
  induction todo as [|[i l] rest IH]; intros c; simpl.
  - unfold pysum. simpl. lra.
  - specialize (IH (c - (l_ro l - l_ri l))).
    destruct (ring_shapes scale (c - (l_ro l - l_ri l)) rest) as [shapes f].
    simpl in *. rewrite IH, pysum_cons. lra.
Qed.


Lemma rings_end_at_bore (scale Dd : R) (layers : list Layer) :
  snd (ring_shapes scale (Rout Dd layers) (rev (enumerate layers))) = Dd / 2.
Proof.
  rewrite ring_shapes_final, map_rev, map_snd_enumerate.
  unfold ts_list at 1. rewrite map_rev, pysum_rev.
  unfold Rout, ts_list. lra.
Qed.


(** X16: [draw_furnace_ui] raises on no input, whatever the diameter and
    the layers; it draws two circles per layer and three shapes for the
    bore, and having taken every layer's thickness off the outer radius it
    is back at the bore radius [D/2], the radius of the bore circle. *)
Theorem draw_furnace_ui_never_raises (Dd : R) (layers : list Layer) :
  exists scale shapes,
    ui_scale Dd layers = Ok scale /\
    draw_furnace_ui Dd layers = Ok shapes /\
    List.length shapes = (2 * List.length layers + 3)%nat /\
    snd (ring_shapes scale (Rout Dd layers) (rev (enumerate layers)))
      = Dd / 2.
Proof.
  unfold draw_furnace_ui.
  assert (Hscale : exists scale, ui_scale Dd layers = Ok scale).
  { unfold ui_scale. destruct (Rlt_dec 0 (Rout Dd layers)) as [Hpos|_].
    - rewrite pydiv_ok by lra. eauto.
    - eauto. }
  destruct Hscale as [scale Hscale]. rewrite Hscale. cbn [bind].
  exists scale. eexists. split; [reflexivity|]. split; [reflexivity|].
  split; [|apply rings_end_at_bore].
  rewrite length_app, ring_shapes_length, length_rev, length_enumerate.
  simpl. lia.
Qed.



(** *** What is stored, and what the report does with it *)


Lemma session_from (calls : list (MaterialManager.table * Inputs)) :
  forall last s,
    fold_left on_calculate calls last = Some s ->
    last = Some s \/
    exists call,
      In call calls /\
      calculate (fst call) (snd call) = Converged (s_res s) /\
      s_layers s = layers (fst call) (snd call) /\
      s_D s = D (snd call).
Proof.
  induction calls as [|call calls IH]; intros last s Hs; simpl in Hs.
  - now left.
  - destruct (IH _ _ Hs) as [Hlast|(call' & Hin & Hrest)].
    + unfold on_calculate in Hlast.
      destruct (calculate (fst call) (snd call)) as [r| |e] eqn:Hr.
      * right. injection Hlast as <-. exists call. simpl. auto.
      * now left.
      * now left.
    + right. exists call'. split; [now right|exact Hrest].
Qed.

Lemma session_keeps (calls : list (MaterialManager.table * Inputs)) :
  forall last,
    last <> None \/
    (exists call, In call calls /\
       exists r, calculate (fst call) (snd call) = Converged r) ->
    fold_left on_calculate calls last <> None.
Proof.
  induction calls as [|call calls IH]; intros last Hsome; simpl.
  - destruct Hsome as [Hlast|(call & [] & _)]. exact Hlast.
  - apply IH.
    destruct Hsome as [Hlast|(call' & [Heq|Hin] & r & Hr)].
    + left. unfold on_calculate.
      destruct (calculate (fst call) (snd call)); [discriminate| |];
        exact Hlast.
    + left. subst call'. unfold on_calculate. rewrite Hr. discriminate.
    + right. eauto.
Qed.



(** X19: the export is offered exactly when some press of the button so
    far ended with a result; a press that ends without one (no
    convergence, or an error) leaves the stored result as it was, so the
    report then shows the result of an earlier press. *)
Theorem export_needs_a_converged_call
  (calls : list (MaterialManager.table * Inputs)) :
  (trigger_export (session calls) = true <->
   exists call, In call calls /\
     exists r, calculate (fst call) (snd call) = Converged r) /\
  forall call,
    (forall r, calculate (fst call) (snd call) <> Converged r) ->
    session (calls ++ [call]) = session calls.
Proof.
  split; [split|].
  - unfold trigger_export.
    destruct (session calls) as [s|] eqn:Hs; [|discriminate].
    intros _. unfold session in Hs.
    destruct (session_from _ _ _ Hs) as [Hnone|(call & Hin & Hr & _)];
      [discriminate|].
    exists call. eauto.
  - intros Hex. unfold trigger_export.
    pose proof (session_keeps calls None (or_intror Hex)) as Hne.
    unfold session. destruct (fold_left on_calculate calls None);
      [reflexivity|contradiction].
  - intros call Hfail. unfold session. rewrite fold_left_app. simpl.
    unfold on_calculate at 1.
    destruct (calculate (fst call) (snd call)) as [r| |e] eqn:Hr;
      [exfalso; now apply (Hfail r)|reflexivity|reflexivity].
Qed.

End DrawingFacts.

(** ** The layer rows and the temperature table *)

Module LayerListFacts.

Import LayerList.
Local Open Scope list_scope.

Lemma map_fst_enumerate {A : Type} (l : list A) :
  map fst (Drawing.enumerate l) = seq 0 (List.length l).
Proof.
  unfold Drawing.enumerate. generalize 0%nat.
  induction l as [|a l IH]; intros k; simpl; [reflexivity|].
  now rewrite IH.
Qed.

Lemma renumber_containers (rows : list Row) :
  map container (renumber rows) = map container rows.
Proof.
  unfold renumber. rewrite map_map. simpl.
  rewrite <- (DrawingFacts.map_snd_enumerate rows) at 2.
  now rewrite map_map.
Qed.

Lemma renumber_labels (rows : list Row) :
  map label (renumber rows) =
  map (fun i => pystr (S i)) (seq 0 (List.length rows)).
Proof.
  unfold renumber. rewrite map_map. simpl.
  rewrite <- map_fst_enumerate. now rewrite map_map.
Qed.

Lemma renumber_length (rows : list Row) :
  List.length (renumber rows) = List.length rows.
Proof.
  unfold renumber. rewrite length_map. apply DrawingFacts.length_enumerate.
Qed.

Lemma list_remove_present (c : nat) (l : list nat) :
  In c l ->
  exists l', list_remove c l = Some l' /\
             S (List.length l') = List.length l /\
             (forall x, In x l' -> In x l) /\
             (forall x, x <> c -> In x l -> In x l') /\
             (NoDup l -> NoDup l' /\ ~ In c l').
Proof.
  induction l as [|x l IH]; simpl; intros Hin; [contradiction|].
  destruct (Nat.eqb_spec x c) as [Heq|Hne].
  - subst x. exists l. repeat split; auto.
    + intros y Hy [Heq|Hin']; [congruence|exact Hin'].
    + now inversion H.
    + now inversion H.
  - destruct Hin as [Heq|Hin]; [contradiction|].
    destruct (IH Hin) as (l' & -> & Hlen & Hsub & Hkeep & Hnd).
    exists (x :: l'). repeat split.
    + simpl. now rewrite Hlen.
    + intros y [Hy|Hy]; [now left|right; now apply Hsub].
    + intros y Hy [Heq|Hin']; [now left|right; now apply Hkeep].
    + inversion H as [|x' l0 Hx Hl]; subst.
      constructor; [|now apply Hnd].
      intros Hx'. apply Hx. now apply Hsub.
    + inversion H as [|x' l0 Hx Hl]; subst.
      intros [Heq|Hin']; [contradiction|]. now apply (proj2 (Hnd Hl)).
Qed.

Lemma pop_container_containers (c : nat) (rows : list Row) (l' : list nat) :
  list_remove c (map container rows) = Some l' ->
  map container (pop_container c rows) = l'.
Proof.
  revert l'. induction rows as [|r rows IH]; simpl; intros l' Hrm.
  - discriminate.
  - destruct (Nat.eqb (container r) c).
    + now injection Hrm as <-.
    + destruct (list_remove c (map container rows)) as [rest|];
        [|discriminate].
      injection Hrm as <-. simpl. f_equal. now apply IH.
Qed.

(** X20: on a well-kept list, pressing the delete button of a row never
    raises and leaves the list well kept: with a single row nothing is
    removed; with more, exactly that row goes, the others stay, and the
    rows are numbered 1, 2, ... again. *)
Theorem remove_layer_keeps_a_layer (c : nat) (st : State) :
  well_kept st -> In c (controls st) ->
  snd (remove_layer c st) = None /\
  well_kept (fst (remove_layer c st)) /\
  (List.length (layer_controls st) = 1%nat ->
   fst (remove_layer c st) = st) /\
  ((2 <= List.length (layer_controls st))%nat ->
   ~ In c (controls (fst (remove_layer c st))) /\
   S (List.length (layer_controls (fst (remove_layer c st)))) =
     List.length (layer_controls st) /\
   forall x, x <> c -> In x (controls st) ->
             In x (controls (fst (remove_layer c st)))).
Proof.
  intros (Hstep & Hnd & Hne & Hlab) Hin. unfold remove_layer.
  destruct (Nat.leb_spec (List.length (layer_controls st)) 1) as [Hle|Hgt].
  - simpl. split; [reflexivity|]. split; [unfold well_kept; auto|].
    split; [reflexivity|]. intros H2. lia.
  - destruct (list_remove_present c (controls st) Hin)
      as (cs & Hrm & Hlen & Hsub & Hkeep & Hnodup).
    rewrite Hrm. simpl.
    assert (Hpop : map container (pop_container c (layer_controls st)) = cs).
    { apply pop_container_containers. now rewrite Hstep. }
    assert (Hrows : S (List.length (pop_container c (layer_controls st))) =
                    List.length (layer_controls st)).
    { rewrite <- (length_map container (pop_container c (layer_controls st))).
      rewrite Hpop, Hlen, <- Hstep. apply length_map. }
    split; [reflexivity|]. split; [|split].
    + unfold well_kept. simpl. repeat split.
      * now rewrite renumber_containers.
      * now apply Hnodup.
      * intros Hnil. apply (f_equal (@List.length Row)) in Hnil.
        rewrite renumber_length in Hnil. simpl in Hnil. lia.
      * now rewrite renumber_labels, renumber_length.
    + intros Hone. lia.
    + intros _. repeat split.
      * now apply Hnodup.
      * now rewrite renumber_length.
      * exact Hkeep.
Qed.

Lemma start_up_well_kept : well_kept start_up.
Proof.
  unfold well_kept, start_up. simpl. repeat split.
  - repeat constructor; simpl; intuition discriminate.
  - discriminate.
Qed.

(** At start-up, the delete button of the first row. *)
Lemma remove_layer_keeps_a_layer_start_up :
  snd (remove_layer 0 start_up) = None /\
  well_kept (fst (remove_layer 0 start_up)).
Proof.
  destruct (remove_layer_keeps_a_layer 0 start_up start_up_well_kept)
    as (Herr & Hkept & _).
  - simpl. now left.
  - split; [exact Herr|exact Hkept].
Defined.

Lemma add_layer_well_kept (names : list string) (fresh mat_idx : nat)
  (thickness : string) (st : State) :
  well_kept st -> ~ In fresh (controls st) ->
  well_kept (fst (add_layer names fresh mat_idx thickness st)).
Proof.
  intros (Hstep & Hnd & Hne & Hlab) Hfresh. unfold add_layer.
  destruct (if Nat.ltb mat_idx (List.length names)
            then nth_error names mat_idx else nth_error names 0) as [v|];
    simpl.
  - unfold well_kept. simpl. repeat split.
    + rewrite map_app, Hstep. reflexivity.
    + apply MaterialManagerFacts.NoDup_snoc; assumption.
    + intros Hnil. now apply app_eq_nil in Hnil as [_ Hnil].
    + rewrite map_app, Hlab, length_app. simpl.
      rewrite Nat.add_1_r, seq_S, map_app. reflexivity.
  - unfold well_kept. auto.
Qed.

(** X21: whatever layers are added and whichever delete buttons are
    pressed, a list that was well kept stays well kept: it never becomes
    empty, the rows and the column stay in step and the rows stay numbered
    1, 2, ... *)
Theorem layer_list_stays_well_kept (names : list string) (st st' : State) :
  well_kept st -> events names st st' -> well_kept st'.
Proof.
  intros Hkept Hevs. induction Hevs as [|st mid st' Hev _ IH];
    [exact Hkept|].
  apply IH. destruct Hev as [fresh mat_idx thickness Hfresh|c Hin].
  - now apply add_layer_well_kept.
  - now apply remove_layer_keeps_a_layer.
Qed.

(** From start-up: the second row is deleted, then a layer is added. *)
Lemma layer_list_stays_well_kept_start_up :
  well_kept (fst (add_layer ["a"%string] 2 0 "50"
                    (fst (remove_layer 1 start_up)))).
Proof.
  apply (layer_list_stays_well_kept ["a"%string] start_up);
    [exact start_up_well_kept|].
  eapply evs_more; [apply (ev_remove _ start_up 1); simpl; auto|].
  eapply evs_more; [|apply evs_none].
  apply ev_add. simpl. intuition discriminate.
Defined.

End LayerListFacts.

Module TempsTableFacts.

Import TempsTable.
Local Open Scope string_scope.
Local Open Scope list_scope.

Lemma enumerate_from_app {A : Type} (l : list A) (x : A) :
  forall k, combine (seq k (List.length (l ++ [x]))) (l ++ [x]) =
            combine (seq k (List.length l)) l ++ [((k + List.length l)%nat, x)].
Proof.
  induction l as [|a l IH]; intros k; simpl.
  - now rewrite Nat.add_0_r.
  - rewrite IH. now rewrite Nat.add_succ_r.
Qed.

Lemma enumerate_bound {A : Type} (l : list A) :
  forall k it, In it (combine (seq k (List.length l)) l) ->
               (k <= fst it < k + List.length l)%nat.
Proof.
  induction l as [|a l IH]; intros k it; simpl; [contradiction|].
  intros [<-|Hin]; simpl; [lia|].
  apply IH in Hin. lia.
Qed.

(** X22: of the rows of the temperature table the first is the inner
    wall, the last is the outer surface and carries the last temperature,
    and the rows between them are the interfaces numbered from 1: the
    outer-surface label falls on the last row and on no other.  With a
    single temperature the table has the inner-wall row alone. *)
Theorem temps_rows_labels (fmt1 : R -> string) (first ts : R)
  (mid : list R) :
  temps_rows fmt1 (first :: mid ++ [ts]) =
    Some (("内壁(验算)", fmt1 first, "°C")
          :: map (fun it => (("层 " ++ pystr (S (fst it)) ++ " 界面")%string,
                             fmt1 (snd it), "°C"))
                 (Drawing.enumerate mid)
          ++ [("外壁表面", fmt1 ts, "°C")]) /\
  temps_rows fmt1 [first] = Some [("内壁(验算)", fmt1 first, "°C")].
Proof.
  split; [|reflexivity].
  unfold temps_rows, Drawing.enumerate. f_equal. f_equal.
  rewrite enumerate_from_app, map_app. f_equal.
  - apply map_ext_in. intros it Hin. apply enumerate_bound in Hin.
    unfold row_label. simpl List.length. rewrite length_app. simpl.
    destruct (Nat.eqb_spec (fst it) (List.length mid + 1 - 1)) as [Heq|_];
      [lia|reflexivity].
  - simpl. unfold row_label. simpl List.length. rewrite length_app. simpl.
    destruct (Nat.eqb_spec (List.length mid) (List.length mid + 1 - 1))
      as [_|Hne]; [reflexivity|lia].
Qed.

End TempsTableFacts.
